(** * LCR measurement recorder: a shallow embedding of [LCR_Comm_Script.py]

    The development follows the script top-down: the text helpers used on the
    instrument's answer, the fixed-point rendering of the relative timestamp,
    the header table, the operator-input checks of [StartRecording], and the
    acquisition loop [RecordMeasurements] run against an explicit description
    of what its environment (instrument, file, console, clock, stop flag)
    does at each call. *)

From Stdlib Require Import ZArith QArith Qround Ascii String List Lia.
From stdpp Require Import base tactics option list strings gmap pretty.

Local Open Scope string_scope.
Local Open Scope list_scope.
Local Open Scope Z_scope.

(** ** Text helpers: [str.strip] and [str.split(',')] *)

Module Text.

(** [str.isspace] on the ASCII range, which is all the instrument transport
    delivers: TAB..CR (9-13), the separators FS..US (28-31) and the space. *)
Definition isspace (c : ascii) : bool :=
  let n := nat_of_ascii c in
  ((9 <=? n)%nat && (n <=? 13)%nat) || ((28 <=? n)%nat && (n <=? 32)%nat).

Definition comma : ascii := ","%char.

Fixpoint lstrip (s : string) : string :=
  match s with
  | EmptyString => EmptyString
  | String c s' => if isspace c then lstrip s' else s
  end.

Definition is_empty (s : string) : bool :=
  match s with EmptyString => true | String _ _ => false end.

Fixpoint rstrip (s : string) : string :=
  match s with
  | EmptyString => EmptyString
  | String c s' =>
      let r := rstrip s' in
      if isspace c && is_empty r then EmptyString else String c r
  end.

(** [s.strip()] *)
Definition strip (s : string) : string := rstrip (lstrip s).

(** [s.split(sep)] for a one-character separator: never the empty list,
    [''.split(',')] is [['']]. *)
Fixpoint split (sep : ascii) (s : string) : list string :=
  match s with
  | EmptyString => [EmptyString]
  | String c s' =>
      if Ascii.eqb c sep then EmptyString :: split sep s'
      else match split sep s' with
           | f :: fs => String c f :: fs
           | [] => [String c EmptyString]
           end
  end.

(** Line 119: [[val.strip() for val in data.strip().split(',')]] *)
Definition parse_values (data : string) : list string :=
  map strip (split comma (strip data)).

(** The same list as the specification words it: the answer split on commas,
    each field trimmed (no trimming of the whole answer first). *)
Definition split_then_trim (data : string) : list string :=
  map strip (split comma data).

Definition on_head {A} (f : A -> A) (l : list A) : list A :=
  match l with [] => [] | x :: t => f x :: t end.

Fixpoint on_last {A} (f : A -> A) (l : list A) : list A :=
  match l with
  | [] => []
  | [x] => [f x]
  | x :: t => x :: on_last f t
  end.

End Text.

(** ** The relative timestamp: ["{:.3f}".format(time.time() - start_time)] *)

Module Stamp.

(** Clock values and durations are counted in microseconds. *)

(** Nearest multiple of [d], ties to the even quotient (the rounding of
    [format] on a value that is an exact decimal). *)
Definition round_half_even (a d : Z) : Z :=
  let q := (a / d)%Z in
  let r := (a mod d)%Z in
  if (2 * r <? d)%Z then q
  else if (d <? 2 * r)%Z then (q + 1)%Z
  else if Z.even q then q else (q + 1)%Z.

(** Magnitude of [t] microseconds in milliseconds, as [".3f"] rounds it. *)
Definition millis (t : Z) : Z := round_half_even (Z.abs t) 1000.

(** The number a rendered timestamp denotes, in milliseconds. *)
Definition value_ms (t : Z) : Z := (Z.sgn t * millis t)%Z.

Definition digit (n : Z) : ascii := pretty_N_char (Z.to_N n).

Definition three_digits (n : Z) : string :=
  String (digit (n / 100)) (String (digit ((n / 10) mod 10)) (String (digit (n mod 10)) "")).

(** ["{:.3f}".format(t)] for [t] microseconds: sign, integer part, a point
    and three decimals. The code renders a binary float, which lies exactly
    half way between two milliseconds only at odd multiples of 1/16 s, where
    it is rounded to the even one as here; a whole number of microseconds
    ending in 500 otherwise stands for floats on either side of it, rendered
    up or down. What is stated about a rendered timestamp is therefore its
    shape, that it reads back within half a millisecond of the time, and the
    order of the numbers read back. *)
Definition format3 (t : Z) : string :=
  let m := millis t in
  (if (t <? 0)%Z then "-" else "") +:+
  pretty (Z.to_N (m / 1000)) +:+ "." +:+ three_digits (m mod 1000).

Definition is_digit (c : ascii) : bool :=
  let n := nat_of_ascii c in ((48 <=? n)%nat && (n <=? 57)%nat).

(** Reading a rendered timestamp back as a number of milliseconds. *)
Definition digit_value (c : ascii) : Z := Z.of_nat (nat_of_ascii c) - 48.

Fixpoint read_digits (acc : Z) (s : string) : Z :=
  match s with
  | EmptyString => acc
  | String c s' => read_digits (10 * acc + digit_value c) s'
  end.

Fixpoint read_fixed (acc : Z) (s : string) : option Z :=
  match s with
  | EmptyString => None
  | String c s' =>
      if Ascii.eqb c "."%char then Some (acc * 1000 + read_digits 0 s')
      else read_fixed (10 * acc + digit_value c) s'
  end.

Definition read_ms (s : string) : option Z :=
  match s with
  | String c s' =>
      if Ascii.eqb c "-"%char then option_map Z.opp (read_fixed 0 s')
      else read_fixed 0 s
  | EmptyString => None
  end.

Fixpoint all_digits (s : string) : bool :=
  match s with
  | EmptyString => true
  | String c s' => is_digit c && all_digits s'
  end.

End Stamp.

(** ** Header table *)

(** The entries of [HeaderMapping], lines 12-20. *)
Definition header_table : list (string * list string) :=
  [ ("Z-deg", ["Timestamp"; "Impedance (Ohm)"; "Phase Angle (deg)"]);
    ("R-X",   ["Timestamp"; "Resistance (Ohm)"; "Reactance (Ohm)"]);
    ("C",     ["Timestamp"; "Capacitance (F)"]);
    ("L",     ["Timestamp"; "Inductance (H)"]);
    ("Q",     ["Timestamp"; "Quality Factor"]);
    ("D",     ["Timestamp"; "Dissipation Factor"]);
    ("DCR",   ["Timestamp"; "DC Resistance (Ohm)"]) ].

Definition HeaderMapping : gmap string (list string) := list_to_map header_table.

(** The modes offered by the selector ([mode_options], line 147). *)
Definition mode_options : list string :=
  ["R-X"; "Z-deg"; "C"; "L"; "Q"; "D"; "DCR"].

Definition default_header : list string :=
  ["Timestamp"; "Measurement Value"; "N/A"].

(** Line 104: [HeaderMapping.get(measurement_mode, [...])] *)
Definition header_of (measurement_mode : string) : list string :=
  default default_header (HeaderMapping !! measurement_mode).

(** Line 105: [expected_values = len(header) - 1] *)
Definition expected_values (measurement_mode : string) : nat :=
  length (header_of measurement_mode) - 1.

(** ** The acquisition thread, [RecordMeasurements] *)

Module Recorder.

(** A raised exception, by its message. *)
Definition exn : Type := string.

Definition row : Type := list string.

(** The calls the thread makes, in the order it makes them. *)
Inductive event : Type :=
| EvOpenWrite (filename : string)          (* open(filename, mode="w", newline="") *)
| EvWriteRow (r : row)                     (* writer.writerow(r) *)
| EvFlush                                  (* csvfile.flush() *)
| EvFileClose                              (* leaving the with block *)
| EvStopPoll (is_set : bool)               (* StopEvent.is_set() *)
| EvInstrWrite (cmd : string)              (* instrument.write(cmd) *)
| EvInstrQuery (cmd : string)              (* instrument.query(cmd) *)
| EvSleep (us : Z)                         (* time.sleep(...) *)
| EvTime (now : Z)                         (* time.time() *)
| EvPrintRow (ts : string) (values : list string)   (* line 128 *)
| EvPrintWarning (expected : nat) (values : list string)
                                           (* line 122, commented out in the script *)
| EvPrintError (e : exn)                   (* line 130 *)
| EvInstrClose                             (* instrument.close() *)
| EvStatus (text : string).                (* status_label.config(text=...) *)

(** How a computation ends: with a value, with an exception, or not yet
    (the description of the environment stops while the loop still runs). *)
Inductive res (A : Type) : Type :=
| Done (a : A)
| Raises (e : exn)
| Running.
Arguments Done {A} a.
Arguments Raises {A} e.
Arguments Running {A}.

(** What the thread can observe and change: the clock, the files on disk
    (as the rows they hold), the rows the open file object still buffers,
    and the shared stop flag. *)
Record state : Type := State {
  clock : Z;
  files : gmap string (list row);
  pending : list row;
  StopEvent : bool
}.

Definition M (A : Type) : Type := state -> list event * state * res A.

Definition bind {A B} (m : M A) (k : A -> M B) : M B :=
  fun st =>
    match m st with
    | (t1, st1, Done a) =>
        match k a st1 with (t2, st2, r) => (t1 ++ t2, st2, r) end
    | (t1, st1, Raises e) => (t1, st1, Raises e)
    | (t1, st1, Running) => (t1, st1, Running)
    end.

Notation "x <- m ;; k" := (bind m (fun x => k))
  (at level 100, m at level 99, right associativity).
Notation "m ;; k" := (bind m (fun _ => k))
  (at level 100, right associativity).

(** [try: m except Exception as e: h e] *)
Definition try_except {A} (m : M A) (h : exn -> M A) : M A :=
  fun st =>
    match m st with
    | (t1, st1, Raises e) =>
        match h e st1 with (t2, st2, r) => (t1 ++ t2, st2, r) end
    | other => other
    end.

Definition emit (ev : event) : M unit := fun st => ([ev], st, Done tt).

Definition elapse (us : N) : M unit :=
  fun st => ([], State (clock st + Z.of_N us) (files st) (pending st) (StopEvent st), Done tt).

Definition outcome (r : option exn) : M unit :=
  fun st => ([], st, match r with None => Done tt | Some e => Raises e end).

(** What the environment does during one pass of the loop: whether each
    call to the instrument or to the file raises, how long the calls take, by
    how much each sleep overruns, and whether [StopRecording] runs meanwhile.
    The clock counts microseconds and only moves forward; a sleep lasts at
    least as long as asked. [time.sleep], [time.time] and [print] are taken
    to return. *)
Record iteration : Type := Iteration {
  trg_raises : option exn;       (* instrument.write("*TRG") *)
  trg_takes : N;
  settle_over : N;               (* time.sleep(0.2) *)
  fetch : exn + string;          (* instrument.query("FETC?") *)
  fetch_takes : N;
  writerow_raises : option exn;  (* writer.writerow(row) *)
  flush_raises : option exn;     (* csvfile.flush() *)
  store_takes : N;
  interval_over : N;             (* time.sleep(interval) *)
  stop_pressed : bool            (* StopRecording() called during the pass *)
}.

(** The environment of a whole run. *)
Record session : Type := Session {
  open_raises : option exn;         (* open(filename, "w") *)
  header_raises : option exn;       (* writer.writerow(header) *)
  schedule : list iteration;
  file_close_raises : option exn;   (* closing the file on leaving [with] *)
  instr_close_raises : option exn   (* instrument.close() *)
}.

(** The settle delay of line 116, 0.2 s. *)
Definition settle_us : N := 200000.

(** [StopRecording], line 136: [StopEvent.set()] *)
Definition StopRecording (st : state) : state :=
  State (clock st) (files st) (pending st) true.

(** The thread function with the recording interval given as the time its
    sleep lasts, in microseconds: the run of a session whose interval
    [time.sleep] takes. The thread for any float the start handler can hand
    over, the ones the sleep refuses included, is [Thread.RecordMeasurements]
    further down; the two agree on an interval the sleep takes. *)
Section Run.

Variable filename : string.
Variable interval : N.
Variable start_time : Z.

Definition on_disk (st : state) : list row := default [] (files st !! filename).

(** Rows the writer has accepted so far: those flushed to the file and those
    still buffered. A flush that raises leaves the buffered rows where they
    are, for the next flush or the close to write out. *)
Definition file_rows (st : state) : list row := on_disk st ++ pending st.

Definition instrument_write (cmd : string) (takes : N) (r : option exn) : M unit :=
  emit (EvInstrWrite cmd) ;; elapse takes ;; outcome r.

Definition instrument_query (cmd : string) (takes : N) (r : exn + string) : M string :=
  emit (EvInstrQuery cmd) ;; elapse takes ;;
  fun st => ([], st, match r with inl e => Raises e | inr data => Done data end).

Definition sleep (us over : N) : M unit :=
  emit (EvSleep (Z.of_N us)) ;; elapse us ;; elapse over.

Definition time_time : M Z :=
  fun st => ([EvTime (clock st)], st, Done (clock st)).

Definition writerow (r : row) (raises : option exn) : M unit :=
  emit (EvWriteRow r) ;; outcome raises ;;
  fun st => ([], State (clock st) (files st) (pending st ++ [r]) (StopEvent st), Done tt).

Definition write_out (st : state) : state :=
  State (clock st) (<[filename := file_rows st]> (files st)) [] (StopEvent st).

Definition flush (raises : option exn) : M unit :=
  emit EvFlush ;; outcome raises ;; fun st => ([], write_out st, Done tt).

(** Lines 115-128, the body of the [try]. *)
Definition attempt (it : iteration) : M unit :=
  instrument_write "*TRG" (trg_takes it) (trg_raises it) ;;
  sleep settle_us (settle_over it) ;;
  data <- instrument_query "FETC?" (fetch_takes it) (fetch it) ;;
  let values := Text.parse_values data in
  now <- time_time ;;
  let relativeTimestamp := Stamp.format3 (now - start_time) in
  let row := relativeTimestamp :: values in
  writerow row (writerow_raises it) ;;
  flush (flush_raises it) ;;
  elapse (store_takes it) ;;
  emit (EvPrintRow relativeTimestamp values).

Definition foreground (it : iteration) : M unit :=
  fun st => ([], if stop_pressed it then StopRecording st else st, Done tt).

(** Lines 113-131, one pass of the [while]. *)
Definition iteration_body (it : iteration) : M unit :=
  try_except (attempt it) (fun e => emit (EvPrintError e)) ;;
  sleep interval (interval_over it) ;;
  foreground it.

(** Lines 112-131: [while not StopEvent.is_set(): ...] *)
Fixpoint loop (sched : list iteration) : M unit :=
  fun st =>
    if StopEvent st then ([EvStopPoll true], st, Done tt)
    else
      match sched with
      | [] => ([EvStopPoll false], st, Running)
      | it :: rest =>
          (emit (EvStopPoll false) ;; iteration_body it ;; loop rest) st
      end.

(** [with open(filename, mode="w", newline="") as csvfile: body]: the file
    is created empty, and closed however [body] ends. *)
Definition with_open (env : session) (body : M unit) : M unit :=
  emit (EvOpenWrite filename) ;; outcome (open_raises env) ;;
  fun st =>
    let st0 := State (clock st) (<[filename := []]> (files st)) [] (StopEvent st) in
    match body st0 with
    | (t1, st1, Running) => (t1, st1, Running)
    | (t1, st1, r) =>
        match file_close_raises env with
        | Some e => (t1 ++ [EvFileClose], st1, Raises e)
        | None => (t1 ++ [EvFileClose], write_out st1, r)
        end
    end.

(** Lines 102-133. *)
Definition RecordMeasurements (env : session) (measurement_mode : string) : M unit :=
  let header := header_of measurement_mode in
  let expected_values := (length header - 1)%nat in
  with_open env
    (writerow header (header_raises env) ;; loop (schedule env)) ;;
  (emit EvInstrClose ;; outcome (instr_close_raises env)) ;;
  emit (EvStatus "Recording stopped.").

(** The state in which the loop is entered: the file just created by
    [open(..., "w")], the header handed to the writer. *)
Definition at_loop (measurement_mode : string) (st : state) : state :=
  State (clock st) (<[filename := []]> (files st)) [header_of measurement_mode]
    (StopEvent st).

(** The clock value [time.time()] returns in a pass started in [st]. *)
Definition reading (it : iteration) (st : state) : Z :=
  clock st + Z.of_N (trg_takes it) + Z.of_N settle_us + Z.of_N (settle_over it)
  + Z.of_N (fetch_takes it).

(** The answer a pass gets to parse: the query was reached and returned. *)
Definition fetched (it : iteration) : option string :=
  match trg_raises it, fetch it with
  | None, inr data => Some data
  | _, _ => None
  end.

(** The row a pass hands to the writer, when [writer.writerow] returns. *)
Definition produced (it : iteration) (st : state) : option row :=
  match fetched it, writerow_raises it with
  | Some data, None =>
      Some (Stamp.format3 (reading it st - start_time) :: Text.parse_values data)
  | _, _ => None
  end.

End Run.

(** The calls of the [try] body that can raise. *)
Inductive stage : Type := Trigger | Fetch | WriteRow | Flush.

(** The first call of a pass that raises, with what it raises. *)
Definition failure (it : iteration) : option (stage * exn) :=
  match trg_raises it with
  | Some e => Some (Trigger, e)
  | None =>
      match fetch it with
      | inl e => Some (Fetch, e)
      | inr _ =>
          match writerow_raises it with
          | Some e => Some (WriteRow, e)
          | None =>
              match flush_raises it with
              | Some e => Some (Flush, e)
              | None => None
              end
          end
      end
  end.

(** The pass ran its [try] body to the end. *)
Definition completed (it : iteration) : bool :=
  match failure it with None => true | Some _ => false end.

(** [writer.writerow(row)] was reached and returned. *)
Definition wrote (it : iteration) : bool :=
  match failure it with
  | None | Some (Flush, _) => true
  | Some _ => false
  end.

(** The passes the loop makes: those scheduled up to the first one during
    which the stop flag gets set. *)
Fixpoint executed (stop : bool) (sched : list iteration) : list iteration :=
  if stop then []
  else match sched with
       | [] => []
       | it :: rest => it :: executed (stop_pressed it) rest
       end.

(** The stop flag is set at some poll of the loop. *)
Definition terminates (stop : bool) (sched : list iteration) : bool :=
  stop || existsb stop_pressed sched.

(** Rows whose first cell renders clock readings taken at least a settle
    delay after [c] and after one another. *)
Fixpoint stamped (start_time c : Z) (rs : list row) : Prop :=
  match rs with
  | [] => True
  | r :: rs' =>
      exists now vs,
        r = Stamp.format3 (now - start_time) :: vs
        /\ c + 200000 <= now
        /\ stamped start_time now rs'
  end.


Definition is_poll (ev : event) : bool :=
  match ev with EvStopPoll _ => true | _ => false end.

Definition is_trigger (ev : event) : bool :=
  match ev with EvInstrWrite _ => true | _ => false end.

(** The schema-mismatch warning of line 122. *)
Definition is_advisory (ev : event) : bool :=
  match ev with EvPrintWarning _ _ => true | _ => false end.

Definition is_write (ev : event) : bool :=
  match ev with EvWriteRow _ => true | _ => false end.

Definition is_status (ev : event) : bool :=
  match ev with EvStatus _ => true | _ => false end.

Definition is_instr_close (ev : event) : bool :=
  match ev with EvInstrClose => true | _ => false end.

Definition is_file_close (ev : event) : bool :=
  match ev with EvFileClose => true | _ => false end.

Definition count (p : event -> bool) (tr : list event) : nat :=
  length (filter (fun ev => p ev = true) tr).

(** The state in which the thread starts: no file object yet. *)
Definition initial (now : Z) (disk : gmap string (list row)) (stop : bool) : state :=
  State now disk [] stop.

Definition trace_of {A} (x : list event * state * res A) : list event := x.1.1.
Definition state_of {A} (x : list event * state * res A) : state := x.1.2.
Definition result_of {A} (x : list event * state * res A) : res A := x.2.

(** A pass in which every call returns. *)
Definition answers (data : string) (takes : N) (stop : bool) : iteration :=
  Iteration None 0 0 (inr data) takes None None 0 0 stop.

Definition fetch_fails (e : exn) (stop : bool) : iteration :=
  Iteration None 0 0 (inl e) 0 None None 0 0 stop.


Definition quiet (sched : list iteration) : session :=
  Session None None sched None None.

(** [it] with the stop button left alone. *)
Definition unpressed (it : iteration) : iteration :=
  Iteration (trg_raises it) (trg_takes it) (settle_over it) (fetch it)
    (fetch_takes it) (writerow_raises it) (flush_raises it)
    (store_takes it) (interval_over it) false.


(** *** Sample runs *)


(** A freshly opened capacitance recording. *)
Definition fresh_C : state := at_loop "m.csv" "C" (initial 0 ∅ false).

(** Three passes, the second of which times out on the query. *)
Definition glitch_run : list iteration :=
  [answers "12.3e-9" 0 false; fetch_fails "timeout" false; answers "12.4e-9" 0 true].

(** A reading of two values where the capacitance header has one column. *)
Definition two_values : iteration := answers "1.0,2.0" 0 false.

(** The instrument is gone when the thread closes it. *)
Definition lost_link : session :=
  Session None None [answers "1.0" 0 true] None (Some "VI_ERROR_CONN_LOST").

End Recorder.


(** ** The start button, [StartRecording] *)

Module Start.

(** A Python float, as far as comparisons can tell. *)
Inductive pyfloat : Type :=
| Finite (q : Q)
| PosInf
| NegInf
| NaN.

(** [a <= b] on floats; any comparison with [nan] is false. *)
Definition float_le (a b : pyfloat) : bool :=
  match a, b with
  | NaN, _ | _, NaN => false
  | NegInf, _ => true
  | _, PosInf => true
  | Finite x, Finite y => Qle_bool x y
  | PosInf, _ => false
  | Finite _, NegInf => false
  end.

(** What the operator has entered. A numeric entry is given by what
    [float(entry.get())] makes of its text: [None] when the text is no
    number and [float] raises [ValueError]. *)
Record form : Type := Form {
  mode_var : string;
  sampling_freq_entry : option pyfloat;
  sample_level_entry : option pyfloat;
  speed_var : string;
  record_interval_entry : option pyfloat;
  filename_entry : string
}.

(** Lines 27-29: [if not (20 <= SamplingFreq <= 500000): raise ValueError] *)
Definition frequency_ok (entry : option pyfloat) : bool :=
  match entry with
  | Some x => float_le (Finite (20 # 1)) x && float_le x (Finite (500000 # 1))
  | None => false
  end.

(** Lines 35-37: [if not (0.005 <= SampleLevel <= 2): raise ValueError] *)
Definition level_ok (entry : option pyfloat) : bool :=
  match entry with
  | Some x => float_le (Finite (5 # 1000)) x && float_le x (Finite (2 # 1))
  | None => false
  end.

(** Lines 45-47: [if RecordInterval <= 0: raise ValueError] *)
Definition interval_ok (entry : option pyfloat) : bool :=
  match entry with
  | Some x => negb (float_le x (Finite (0 # 1)))
  | None => false
  end.

(** The text of an entry is a Python [str]. It is held here as the bytes of
    its UTF-8 encoding, so a character is one to four bytes and the bytes
    below 128 are the ASCII characters.

    [str.lower] and [str.upper] on one byte, for the letters A-Z and a-z. The
    script lowers the file name only to compare its end with [.csv], and no
    character other than C, S and V lowers to a character of [.csv], so
    leaving the other bytes as they are does not change the test. The mode
    and the speed come from the option menus, whose entries are ASCII. *)
Definition lower_char (c : ascii) : ascii :=
  let n := nat_of_ascii c in
  if ((65 <=? n)%nat && (n <=? 90)%nat)%bool then ascii_of_nat (n + 32) else c.

Definition upper_char (c : ascii) : ascii :=
  let n := nat_of_ascii c in
  if ((97 <=? n)%nat && (n <=? 122)%nat)%bool then ascii_of_nat (n - 32) else c.

Fixpoint map_chars (f : ascii -> ascii) (s : string) : string :=
  match s with
  | EmptyString => EmptyString
  | String c s' => String (f c) (map_chars f s')
  end.

(** [s.endswith(suffix)]: some tail of [s] is [suffix]. *)
Fixpoint endswith (suffix s : string) : bool :=
  if String.eqb s suffix then true
  else match s with
       | EmptyString => false
       | String _ s' => endswith suffix s'
       end.

(** Number of bytes of the character whose first byte is [c]. *)
Definition width (c : ascii) : nat :=
  let n := nat_of_ascii c in
  if (n <? 192)%nat then 1%nat
  else if (n <? 224)%nat then 2%nat
  else if (n <? 240)%nat then 3%nat
  else 4%nat.

Fixpoint take (n : nat) (s : string) : string :=
  match n, s with
  | S n', String c s' => String c (take n' s')
  | _, _ => EmptyString
  end.

Fixpoint drop (n : nat) (s : string) : string :=
  match n, s with
  | S n', String _ s' => drop n' s'
  | _, _ => s
  end.

(** The characters of a text, each as its bytes. *)
Fixpoint chars_upto (fuel : nat) (s : string) : list string :=
  match fuel, s with
  | S fuel', String c r =>
      String c (take (width c - 1) r) :: chars_upto fuel' (drop (width c - 1) r)
  | _, _ => []
  end.

Definition chars (s : string) : list string := chars_upto (String.length s) s.

Definition bytes (l : list nat) : string :=
  fold_right (fun n s => String (ascii_of_nat n) s) EmptyString l.

(** The characters of which [str.isspace] holds, those that [str.strip]
    takes off. *)
Definition white_space : list string :=
  map bytes
    [[9]; [10]; [11]; [12]; [13];               (* TAB, LF, VT, FF, CR *)
     [28]; [29]; [30]; [31];                    (* FS, GS, RS, US *)
     [32];                                      (* space *)
     [194; 133];                                (* U+0085 next line *)
     [194; 160];                                (* U+00A0 no-break space *)
     [225; 154; 128];                           (* U+1680 *)
     [226; 128; 128]; [226; 128; 129]; [226; 128; 130]; [226; 128; 131];
     [226; 128; 132]; [226; 128; 133]; [226; 128; 134]; [226; 128; 135];
     [226; 128; 136]; [226; 128; 137]; [226; 128; 138];   (* U+2000..U+200A *)
     [226; 128; 168]; [226; 128; 169];          (* U+2028, U+2029 *)
     [226; 128; 175];                           (* U+202F *)
     [226; 129; 159];                           (* U+205F *)
     [227; 128; 128]]%nat.                      (* U+3000 *)

Definition is_space (ch : string) : bool := existsb (String.eqb ch) white_space.

Fixpoint lstrip_chars (l : list string) : list string :=
  match l with
  | [] => []
  | ch :: l' => if is_space ch then lstrip_chars l' else l
  end.

Fixpoint rstrip_chars (l : list string) : list string :=
  match l with
  | [] => []
  | ch :: l' =>
      match rstrip_chars l' with
      | [] => if is_space ch then [] else [ch]
      | r => ch :: r
      end
  end.

(** [entry.get().strip()], line 52. *)
Definition strip_text (s : string) : string :=
  String.concat EmptyString (rstrip_chars (lstrip_chars (chars s))).

(** Lines 57-58: append [.csv] unless the name already ends with it. *)
Definition with_csv (name : string) : string :=
  if endswith ".csv" (map_chars lower_char name) then name else name +:+ ".csv".

(** What the button handler does that can be seen from outside. *)
Inductive action : Type :=
| ShowError (title message : string)     (* messagebox.showerror *)
| OpenResource (address : string)        (* rm.open_resource *)
| InstrWrite (cmd : string)              (* instrument.write *)
| Sleep (us : Z)                         (* time.sleep(0.1) *)
| InstrClose                             (* instrument.close() *)
| ClearStop                              (* StopEvent.clear() *)
| StartThread (filename : string) (interval : pyfloat) (mode : string)
                                         (* Thread(target=RecordMeasurements, ...).start() *)
| Status (text : string).                (* status_label.config *)

Definition touches_instrument (a : action) : bool :=
  match a with
  | OpenResource _ | InstrWrite _ | InstrClose => true
  | _ => false
  end.

(** The instrument side of the handler: whether the connection can be
    opened, and which commands the instrument refuses. *)
Record bench : Type := Bench {
  connect_raises : option Recorder.exn;
  write_raises : string -> option Recorder.exn
}.

Section Handler.

(** The text Python puts for a float inside an f-string; not modelled. *)
Variable float_str : pyfloat -> string.

(** Lines 75-88: the commands one by one, each followed by a 0.1 s sleep;
    the first refusal closes the instrument. *)
Fixpoint configure (b : bench) (cmds : list string) (k : list action) : list action :=
  match cmds with
  | [] => k
  | cmd :: rest =>
      match write_raises b cmd with
      | Some e =>
          [InstrWrite cmd;
           ShowError "Configuration Error"
             ("Error sending configuration commands: " +:+ e);
           InstrClose]
      | None => InstrWrite cmd :: Sleep 100000 :: configure b rest k
      end
  end.

(** Lines 22-100. *)
Definition StartRecording (f : form) (b : bench) : list action :=
  let MeasurementMode := mode_var f in
  match sampling_freq_entry f with
  | Some SamplingFreq =>
  if negb (frequency_ok (Some SamplingFreq)) then
    [ShowError "Input Error" "Sampling frequency must be between 20 and 500000 Hz."]
  else
  match sample_level_entry f with
  | Some SampleLevel =>
  if negb (level_ok (Some SampleLevel)) then
    [ShowError "Input Error" "AC test signal voltage must be between 0.005 and 2 V."]
  else
  let MeasurementSpeed := speed_var f in
  match record_interval_entry f with
  | Some RecordInterval =>
  if negb (interval_ok (Some RecordInterval)) then
    [ShowError "Input Error" "Recording interval must be a positive number (in seconds)."]
  else
  let Filename := strip_text (filename_entry f) in
  if Text.is_empty Filename then
    [ShowError "Input Error" "Please provide a CSV filename."]
  else
  let Filename := with_csv Filename in
  let ModeCommand := "FUNC " +:+ MeasurementMode in
  let FreqCommand := "FREQ " +:+ float_str SamplingFreq +:+ "HZ" in
  let LevelCommand := "VOLT " +:+ float_str SampleLevel +:+ " V" in
  let SpeedCommand := "APER " +:+ map_chars upper_char MeasurementSpeed in
  OpenResource "TCPIP0::192.168.0.10::inst0::INSTR" ::
  match connect_raises b with
  | Some e =>
      [ShowError "Connection Error" ("Error connecting to instrument: " +:+ e)]
  | None =>
      configure b [ModeCommand; FreqCommand; LevelCommand; SpeedCommand]
        [ClearStop; StartThread Filename RecordInterval MeasurementMode;
         Status "Recording started..."]
  end
  | None =>
    [ShowError "Input Error" "Recording interval must be a positive number (in seconds)."]
  end
  | None =>
    [ShowError "Input Error" "AC test signal voltage must be between 0.005 and 2 V."]
  end
  | None =>
    [ShowError "Input Error" "Sampling frequency must be between 20 and 500000 Hz."]
  end.

(** The handler goes as far as the instrument. *)
Definition accepted (f : form) : bool :=
  frequency_ok (sampling_freq_entry f) && level_ok (sample_level_entry f)
  && interval_ok (record_interval_entry f)
  && negb (Text.is_empty (strip_text (filename_entry f))).

End Handler.

(** An instrument that answers every command. *)
Definition willing : bench := Bench None (fun _ => None).

(** The form as the script fills it in (lines 146-179), with the recording
    interval replaced by the text [nan]. *)
Definition nan_interval_form : form :=
  Form "R-X" (Some (Finite (1000 # 1))) (Some (Finite (1 # 1))) "med" (Some NaN)
    "measurements.csv".

(** A stand-in for Python's float formatting in the sample run. *)
Definition sample_float_str (x : pyfloat) : string :=
  match x with
  | Finite q => pretty (Z.to_N (Qnum q / Z.pos (Qden q))) +:+ ".0"
  | PosInf => "inf"
  | NegInf => "-inf"
  | NaN => "nan"
  end.

End Start.

(** ** Further vocabulary for stating properties *)

Module More.

(** How often a character occurs in a text. *)
Fixpoint occurrences (c : ascii) (s : string) : nat :=
  match s with
  | EmptyString => 0%nat
  | String d s' => ((if Ascii.eqb d c then 1 else 0) + occurrences c s')%nat
  end.

(** [",".join(fields)] *)
Definition join (fields : list string) : string := String.concat "," fields.

Definition is_query (ev : Recorder.event) : bool :=
  match ev with Recorder.EvInstrQuery _ => true | _ => false end.

Definition is_row_echo (ev : Recorder.event) : bool :=
  match ev with Recorder.EvPrintRow _ _ => true | _ => false end.

Definition is_error_report (ev : Recorder.event) : bool :=
  match ev with Recorder.EvPrintError _ => true | _ => false end.

(** The pass got past the trigger. *)
Definition triggered (it : Recorder.iteration) : bool :=
  match Recorder.trg_raises it with None => true | Some _ => false end.

(** Rows whose first cell renders an elapsed time at least [gap] after [lo]
    and after one another. *)
Fixpoint paced (gap lo : Z) (rs : list Recorder.row) : Prop :=
  match rs with
  | [] => True
  | r :: rs' =>
      exists e vs, r = Stamp.format3 e :: vs /\ lo + gap <= e /\ paced gap e rs'
  end.

(** The two commands of the loop, lines 115 and 117. *)
Definition only_trigger_and_fetch (ev : Recorder.event) : Prop :=
  match ev with
  | Recorder.EvInstrWrite cmd => cmd = "*TRG"
  | Recorder.EvInstrQuery cmd => cmd = "FETC?"
  | _ => True
  end.

Definition is_start_thread (a : Start.action) : bool :=
  match a with Start.StartThread _ _ _ => true | _ => false end.

Definition is_close (a : Start.action) : bool :=
  match a with Start.InstrClose => true | _ => false end.

Definition is_command (a : Start.action) : bool :=
  match a with Start.InstrWrite _ => true | _ => false end.

Definition tally {A} (p : A -> bool) (l : list A) : nat :=
  length (filter (fun a => p a = true) l).

(** The commands the handler sends, in order. *)
Fixpoint commands (tr : list Start.action) : list string :=
  match tr with
  | [] => []
  | Start.InstrWrite cmd :: tr' => cmd :: commands tr'
  | _ :: tr' => commands tr'
  end.

End More.

(** ** The multimeter check, [DMM_Comm_Script.py] *)

Module DMM.

Definition exn : Type := string.

(** The calls of the script. *)
Inductive event : Type :=
| Open (address : string)            (* rm.open_resource(...) *)
| Write (cmd : string)               (* instr.write(cmd) *)
| Sleep (us : Z)                     (* time.sleep(0.5) *)
| Query (cmd : string)               (* instr.query(cmd) *)
| Print (label text : string)        (* print(label, text) *)
| Close.                             (* instr.close() *)

(** What the instrument does: whether the connection opens, which commands
    it refuses, what it answers to a query, whether closing raises. *)
Record bench : Type := Bench {
  connect_raises : option exn;
  write_raises : string -> option exn;
  answer : string -> exn + string;
  close_raises : option exn
}.

(** A run so far: the calls made, and a value or the exception raised. *)
Definition M (A : Type) : Type := list event * (exn + A).

Definition bind {A B} (m : M A) (k : A -> M B) : M B :=
  match m with
  | (t1, inr a) => match k a with (t2, r) => (t1 ++ t2, r) end
  | (t1, inl e) => (t1, inl e)
  end.

Notation "x <- m ;; k" := (bind m (fun x => k))
  (at level 100, m at level 99, right associativity).
Notation "m ;; k" := (bind m (fun _ => k))
  (at level 100, right associativity).

Definition write (b : bench) (cmd : string) : M unit :=
  ([Write cmd], match write_raises b cmd with Some e => inl e | None => inr tt end).

Definition query (b : bench) (cmd : string) : M string :=
  ([Query cmd], answer b cmd).

Definition sleep (us : Z) : M unit := ([Sleep us], inr tt).

Definition print (label text : string) : M unit := ([Print label text], inr tt).

(** Lines 12-23, the body of the [try]. *)
Definition body (b : bench) : M unit :=
  write b "*CLS" ;;
  write b "*RST" ;;
  write b "SYST:REM" ;;
  write b "FUNC 'VOLT:DC'" ;;
  sleep 500000 ;;
  result <- query b "VAL1?" ;;
  print "VAL1?:" (Text.strip result) ;;
  result2 <- query b "SENS:DATA?" ;;
  print "SENS:DATA?:" (Text.strip result2).

(** [try: m except Exception as e: h e finally: f] *)
Definition try_except_finally (m : M unit) (h : exn -> M unit) (f : M unit) : M unit :=
  let guarded :=
    match m with
    | (t1, inl e) => match h e with (t2, r) => (t1 ++ t2, r) end
    | done => done
    end in
  match guarded, f with
  | (t1, r), (t2, inr _) => (t1 ++ t2, r)
  | (t1, _), (t2, inl e) => (t1 ++ t2, inl e)
  end.

(** The whole script, lines 4-29. Setting the timeout and the termination
    characters (lines 6-9) makes no call to the instrument. *)
Definition script (b : bench) : M unit :=
  match connect_raises b with
  | Some e => ([Open "TCPIP0::192.168.0.11::45454::SOCKET"], inl e)
  | None =>
      ([Open "TCPIP0::192.168.0.11::45454::SOCKET"], inr tt) ;;
      try_except_finally (body b)
        (fun e => print "Error:" e)
        ([Close], match close_raises b with Some e => inl e | None => inr tt end)
  end.

(** The commands of the body, in the order the script sends them. *)
Definition protocol : list string :=
  ["*CLS"; "*RST"; "SYST:REM"; "FUNC 'VOLT:DC'"; "VAL1?"; "SENS:DATA?"].

(** The commands a run sent, writes and queries alike. *)
Fixpoint sent (tr : list event) : list string :=
  match tr with
  | [] => []
  | Write cmd :: tr' => cmd :: sent tr'
  | Query cmd :: tr' => cmd :: sent tr'
  | _ :: tr' => sent tr'
  end.

(** What the instrument raises at a command of the body, if anything: the
    first four are written, the last two queried. *)
Definition refusal (b : bench) (cmd : string) : option exn :=
  if (String.eqb cmd "VAL1?" || String.eqb cmd "SENS:DATA?")%bool then
    match answer b cmd with inl e => Some e | inr _ => None end
  else write_raises b cmd.

(** The commands that get sent out of a list: those before the first one
    refused, and that one. *)
Fixpoint attempted (b : bench) (cmds : list string) : list string :=
  match cmds with
  | [] => []
  | cmd :: rest =>
      match refusal b cmd with
      | Some _ => [cmd]
      | None => cmd :: attempted b rest
      end
  end.

Definition unrefused (b : bench) (cmd : string) : bool :=
  match refusal b cmd with None => true | Some _ => false end.

Definition is_close (ev : event) : bool :=
  match ev with Close => true | _ => false end.

Definition is_error (ev : event) : bool :=
  match ev with Print label _ => String.eqb label "Error:" | _ => false end.

(** An instrument that does not know [SENS:DATA?]. *)
Definition no_sens_data : bench :=
  Bench None (fun _ => None)
    (fun cmd => if String.eqb cmd "SENS:DATA?" then inl "VI_ERROR_TMO" else inr " +1.234E+00 ")
    None.

End DMM.

(** ** Vocabulary for white space *)

Module Blank.

(** Every character is white space. *)
Fixpoint blank (s : string) : bool :=
  match s with
  | EmptyString => true
  | String c s' => Text.isspace c && blank s'
  end.

Definition first_char (s : string) : option ascii :=
  match s with EmptyString => None | String c _ => Some c end.

Fixpoint last_char (s : string) : option ascii :=
  match s with
  | EmptyString => None
  | String c EmptyString => Some c
  | String _ s' => last_char s'
  end.

(** Every character of the text of an entry is white space. *)
Definition blank_text (s : string) : bool := forallb Start.is_space (Start.chars s).

End Blank.

(** ** Vocabulary for the start handler *)

Module Setup.

(** The four configuration commands of lines 61-64, in the order of lines
    77-83. *)
Definition setup_commands (float_str : Start.pyfloat -> string) (f : Start.form)
  : list string :=
  match Start.sampling_freq_entry f, Start.sample_level_entry f with
  | Some freq, Some level =>
      [ "FUNC " +:+ Start.mode_var f;
        "FREQ " +:+ float_str freq +:+ "HZ";
        "VOLT " +:+ float_str level +:+ " V";
        "APER " +:+ Start.map_chars Start.upper_char (Start.speed_var f) ]
  | _, _ => []
  end.

Definition takes (b : Start.bench) (cmd : string) : bool :=
  match Start.write_raises b cmd with None => true | Some _ => false end.

Definition connects (b : Start.bench) : bool :=
  match Start.connect_raises b with None => true | Some _ => false end.

(** A command sent and taken: the write and the 0.1 s sleep after it. *)
Definition sent_and_settled (cmds : list string) : list Start.action :=
  flat_map (fun cmd => [Start.InstrWrite cmd; Start.Sleep 100000]) cmds.

(** A form whose file name is padded with blanks and has its suffix in
    capitals. *)
Definition capitals_form : Start.form :=
  Start.Form "C" (Some (Start.Finite (1000 # 1))) (Some (Start.Finite (1 # 1))) "fast"
    (Some (Start.Finite (1 # 100))) "  Run7.CSV ".

(** The script's own defaults, with only white space typed as the file name:
    a no-break space, a next-line character, an em space, a tab and a space. *)
Definition blank_name_form : Start.form :=
  Start.Form "R-X" (Some (Start.Finite (1000 # 1))) (Some (Start.Finite (1 # 1))) "med"
    (Some (Start.Finite (1 # 100)))
    (Start.bytes [194; 160; 194; 133; 226; 128; 131; 9; 32]%nat).

(** An instrument that refuses the level command. *)
Definition refuses_volt : Start.bench :=
  Start.Bench None
    (fun cmd => if String.prefix "VOLT" cmd then Some "VI_ERROR_TMO" else None).

End Setup.

(** ** The thread for whatever interval it is given *)

(** [Recorder] above runs the loop for an interval of so many microseconds,
    that is, for a value [time.sleep] takes. The thread gets the interval as
    the float the start handler read from the form (line 96), and the sleep
    of line 131 stands outside the [try]: a value it refuses ends the
    thread. This module runs the same body for any float. *)

Module Thread.
Import Recorder.

(** [time.sleep(x)]: not-a-number and negative lengths are refused with a
    [ValueError], lengths that do not fit the 64-bit nanosecond counter
    (the infinities, and from 2^63 ns on) with an [OverflowError]; any other
    length is slept for, here counted in whole microseconds. A refusal is
    given by the type of the exception. *)
Definition sleep_outcome (x : Start.pyfloat) : exn + N :=
  match x with
  | Start.NaN => inl "ValueError"
  | Start.PosInf | Start.NegInf => inl "OverflowError"
  | Start.Finite q =>
      if (Qle_bool (9223372036854775808 # 1000000000) q
          || Qle_bool q (- (9223372036854775808 # 1000000000)))%bool
      then inl "OverflowError"
      else if negb (Qle_bool (0 # 1) q) then inl "ValueError"
      else inr (Z.to_N (Qfloor (q * (1000000 # 1))))
  end.

Section Run.

Variable filename : string.
Variable start_time : Z.

(** Line 131, [time.sleep(interval)]. *)
Definition interval_sleep (interval : Start.pyfloat) (over : N) : M unit :=
  match sleep_outcome interval with
  | inr us => sleep us over
  | inl e => fun st => ([], st, Raises e)
  end.

(** Lines 113-130, the [try] statement with its [except] clause. *)
Definition guarded (it : iteration) : M unit :=
  try_except (attempt filename start_time it) (fun e => emit (EvPrintError e)).

(** Lines 113-131, one pass of the [while]. Whether stop is pressed during
    the pass does not depend on how the sleep ends. *)
Definition pass (interval : Start.pyfloat) (it : iteration) : M unit :=
  guarded it ;;
  foreground it ;;
  interval_sleep interval (interval_over it).

(** Lines 112-131. *)
Fixpoint loop (interval : Start.pyfloat) (sched : list iteration) : M unit :=
  fun st =>
    if StopEvent st then ([EvStopPoll true], st, Done tt)
    else
      match sched with
      | [] => ([EvStopPoll false], st, Running)
      | it :: rest =>
          (emit (EvStopPoll false) ;; pass interval it ;; loop interval rest) st
      end.

(** Lines 102-133, the thread function with the arguments of line 96. *)
Definition RecordMeasurements (interval : Start.pyfloat) (env : session)
    (measurement_mode : string) : M unit :=
  let header := header_of measurement_mode in
  let expected_values := (length header - 1)%nat in
  with_open filename env
    (writerow header (header_raises env) ;; loop interval (schedule env)) ;;
  (emit EvInstrClose ;; outcome (instr_close_raises env)) ;;
  emit (EvStatus "Recording stopped.").

End Run.

(** The passes the loop makes: with an interval the sleep refuses, the
    first one at most. *)
Definition made (interval : Start.pyfloat) (stop : bool) (sched : list iteration)
  : list iteration :=
  match sleep_outcome interval with
  | inr _ => executed stop sched
  | inl _ => if stop then [] else firstn 1 sched
  end.

(** How the loop ends. *)
Definition ending (interval : Start.pyfloat) (stop : bool) (sched : list iteration)
  : res unit :=
  match sleep_outcome interval with
  | inr _ => if terminates stop sched then Done tt else Running
  | inl e =>
      if stop then Done tt
      else match sched with [] => Running | _ :: _ => Raises e end
  end.

(** The row of a pass is the parsed answer behind some timestamp. *)
Definition row_of_pass (r : row) (it : iteration) : Prop :=
  exists ts data, fetched it = Some data /\ r = ts :: Text.parse_values data.

(** A recording interval of ten milliseconds. *)
Definition ten_ms : Start.pyfloat := Start.Finite (1 # 100).

(** A reading of four values, blanks around some of them and one empty. *)
Definition padded : iteration := answers " 1.5e3 , 2 ,,x  " 0 false.

End Thread.

(** * Properties *)

(** *** Facts about the text helpers *)

Section TextFacts.
Import Text.

Lemma split_nonempty sep s : split sep s <> [].
Proof.
  destruct s as [|c s]; simpl; [discriminate|].
  destruct (Ascii.eqb c sep); [discriminate|].
  destruct (split sep s); discriminate.
Qed.

Lemma comma_not_space : isspace comma = false.
Proof. reflexivity. Qed.

Lemma space_not_comma c : isspace c = true -> Ascii.eqb c comma = false.
Proof.
  intros Hc. destruct (Ascii.eqb_spec c comma) as [->|]; [|reflexivity].
  rewrite comma_not_space in Hc. discriminate.
Qed.

Lemma lstrip_idem s : lstrip (lstrip s) = lstrip s.
Proof.
  induction s as [|c s IH]; simpl; [reflexivity|].
  destruct (isspace c) eqn:Hc; [exact IH|]. simpl. now rewrite Hc.
Qed.

Lemma rstrip_cons c s :
  rstrip (String c s) =
  if isspace c && is_empty (rstrip s) then EmptyString else String c (rstrip s).
Proof. reflexivity. Qed.

Lemma rstrip_idem s : rstrip (rstrip s) = rstrip s.
Proof.
  induction s as [|c s IH]; [reflexivity|].
  rewrite rstrip_cons.
  destruct (isspace c && is_empty (rstrip s)) eqn:Hb; [reflexivity|].
  now rewrite rstrip_cons, IH, Hb.
Qed.

Lemma lstrip_rstrip s : lstrip (rstrip s) = rstrip (lstrip s).
Proof.
  induction s as [|c s IH]; [reflexivity|].
  rewrite rstrip_cons. cbn [lstrip].
  destruct (isspace c) eqn:Hc; cbn [andb].
  - destruct (is_empty (rstrip s)) eqn:He.
    + rewrite <- IH. destruct (rstrip s); [reflexivity|discriminate].
    + cbn [lstrip]. now rewrite Hc.
  - cbn [lstrip]. now rewrite Hc, rstrip_cons, Hc.
Qed.

Lemma strip_lstrip s : strip (lstrip s) = strip s.
Proof. unfold strip. now rewrite lstrip_idem. Qed.

Lemma strip_rstrip s : strip (rstrip s) = strip s.
Proof. unfold strip. now rewrite lstrip_rstrip, rstrip_idem. Qed.

Lemma split_lstrip s :
  split comma (lstrip s) = on_head lstrip (split comma s).
Proof.
  induction s as [|c s IH]; simpl; [reflexivity|].
  destruct (isspace c) eqn:Hc.
  - rewrite (space_not_comma _ Hc).
    destruct (split comma s) as [|f fs] eqn:Hs.
    + now apply split_nonempty in Hs.
    + simpl. now rewrite Hc.
  - simpl. destruct (Ascii.eqb c comma); simpl; [reflexivity|].
    destruct (split comma s) as [|f fs]; simpl; now rewrite Hc.
Qed.

Lemma rstrip_empty_split s :
  rstrip s = EmptyString -> split comma s = [s].
Proof.
  induction s as [|c s IH]; simpl; [reflexivity|].
  destruct (isspace c) eqn:Hc; simpl; [|discriminate].
  destruct (rstrip s) eqn:Hr; simpl; [|discriminate].
  intros _. rewrite (space_not_comma _ Hc), IH by reflexivity. reflexivity.
Qed.

Lemma split_single sep s f : split sep s = [f] -> s = f.
Proof.
  revert f. induction s as [|d s IH]; simpl; intros f Hs.
  - now inversion Hs.
  - destruct (Ascii.eqb d sep).
    + inversion Hs as [[Hf Ht]]. now apply split_nonempty in Ht.
    + destruct (split sep s) as [|f' fs'] eqn:Hs'; [now apply split_nonempty in Hs'|].
      inversion Hs; subst. f_equal. now apply IH.
Qed.

Lemma split_rstrip s :
  split comma (rstrip s) = on_last rstrip (split comma s).
Proof.
  induction s as [|c s IH]; [reflexivity|].
  rewrite rstrip_cons.
  destruct (isspace c && is_empty (rstrip s)) eqn:Hb.
  - apply andb_prop in Hb as [Hc He].
    assert (Hr : rstrip s = EmptyString) by (destruct (rstrip s); [reflexivity|discriminate]).
    cbn [split]. rewrite (space_not_comma _ Hc), (rstrip_empty_split _ Hr).
    cbn [on_last]. now rewrite rstrip_cons, Hc, Hr.
  - cbn [split]. rewrite IH.
    destruct (split comma s) as [|f fs] eqn:Hs; [now apply split_nonempty in Hs|].
    destruct (Ascii.eqb c comma) eqn:Hcc; [reflexivity|].
    destruct fs as [|g gs]; [|reflexivity].
    apply split_single in Hs. subst f.
    cbn [on_last]. now rewrite rstrip_cons, Hb.
Qed.

Lemma map_strip_on_head l : map strip (on_head lstrip l) = map strip l.
Proof. destruct l; simpl; [reflexivity|]. now rewrite strip_lstrip. Qed.

Lemma map_strip_on_last l : map strip (on_last rstrip l) = map strip l.
Proof.
  induction l as [|x [|y t] IH]; simpl; [reflexivity| |].
  - now rewrite strip_rstrip.
  - simpl in IH. now rewrite IH.
Qed.

Lemma parse_values_split_then_trim data :
  parse_values data = split_then_trim data.
Proof.
  unfold parse_values, split_then_trim, strip at 2.
  now rewrite split_rstrip, map_strip_on_last, split_lstrip, map_strip_on_head.
Qed.

End TextFacts.

(** ** Facts about the timestamp rendering *)

Section StampFacts.
Import Stamp.
Local Open Scope Z_scope.

Lemma round_half_even_close a d :
  0 < d -> 2 * a - d <= 2 * (d * round_half_even a d) <= 2 * a + d.
Proof.
  intros Hd. unfold round_half_even.
  pose proof (Z.div_mod a d ltac:(lia)) as Hdm.
  pose proof (Z.mod_pos_bound a d Hd) as Hr.
  destruct (2 * (a mod d) <? d) eqn:H1; [apply Z.ltb_lt in H1; nia|].
  apply Z.ltb_ge in H1.
  destruct (d <? 2 * (a mod d)) eqn:H2; [apply Z.ltb_lt in H2; nia|].
  apply Z.ltb_ge in H2.
  destruct (Z.even (a / d)); nia.
Qed.

Lemma millis_nonneg t : 0 <= millis t.
Proof.
  unfold millis. pose proof (round_half_even_close (Z.abs t) 1000 ltac:(lia)). lia.
Qed.

Lemma value_ms_close t : t - 500 <= 1000 * value_ms t <= t + 500.
Proof.
  unfold value_ms, millis.
  pose proof (round_half_even_close (Z.abs t) 1000 ltac:(lia)) as H.
  destruct (Z.sgn_spec t) as [[Ht ->]|[[Ht ->]|[Ht ->]]]; lia.
Qed.


Lemma digit_is_digit n : is_digit (digit n) = true.
Proof.
  unfold digit, pretty_N_char.
  destruct (Z.to_N n) as [|p]; [reflexivity|].
  do 4 (destruct p as [p|p|]; try reflexivity).
Qed.

Lemma pretty_N_char_is_digit n : is_digit (pretty_N_char n) = true.
Proof. rewrite <- (N2Z.id n). apply digit_is_digit. Qed.

Lemma pretty_N_go_digits x s :
  all_digits s = true -> all_digits (pretty_N_go x s) = true.
Proof.
  revert s. induction (N.lt_wf_0 x) as [x _ IH]; intros s Hs.
  destruct (decide (x = 0)%N) as [->|Hx]; [exact Hs|].
  rewrite pretty_N_go_step by lia.
  apply IH; [apply N.div_lt; lia|].
  cbn [all_digits]. now rewrite pretty_N_char_is_digit.
Qed.

Lemma pretty_N_go_nonempty x s : s <> "" -> pretty_N_go x s <> "".
Proof.
  revert s. induction (N.lt_wf_0 x) as [x _ IH]; intros s Hs.
  destruct (decide (x = 0)%N) as [->|Hx]; [exact Hs|].
  rewrite pretty_N_go_step by lia.
  apply IH; [apply N.div_lt; lia|discriminate].
Qed.

Lemma pretty_N_digits (n : N) : all_digits (pretty n) = true /\ pretty n <> "".
Proof.
  unfold pretty, pretty_N.
  destruct (decide (n = 0)%N) as [->|Hn]; [split; [reflexivity|discriminate]|].
  split; [now apply pretty_N_go_digits|].
  rewrite pretty_N_go_step by lia. apply pretty_N_go_nonempty. discriminate.
Qed.

Lemma three_digits_shape n :
  String.length (three_digits n) = 3%nat /\ all_digits (three_digits n) = true.
Proof.
  unfold three_digits. cbn [String.length all_digits].
  now rewrite !digit_is_digit.
Qed.

(** The rendering is an optional minus sign, at least one digit, a point,
    and exactly three digits. *)
Lemma format3_shape t :
  exists sign whole frac,
    format3 t = sign +:+ whole +:+ "." +:+ frac
    /\ (sign = "" \/ sign = "-")
    /\ whole <> "" /\ all_digits whole = true
    /\ String.length frac = 3%nat /\ all_digits frac = true.
Proof.
  exists (if t <? 0 then "-" else ""), (pretty (Z.to_N (millis t / 1000))),
    (three_digits (millis t mod 1000)).
  destruct (pretty_N_digits (Z.to_N (millis t / 1000))) as [Hd Hne].
  destruct (three_digits_shape (millis t mod 1000)) as [Hl Hf].
  repeat split; try assumption.
  destruct (t <? 0); [right|left]; reflexivity.
Qed.

Lemma format3_head t :
  exists c rest, format3 t = String c rest /\ (c = "-"%char \/ is_digit c = true).
Proof.
  destruct (format3_shape t) as (sign & whole & frac & -> & Hs & Hne & Hd & _).
  destruct Hs as [-> | ->].
  - destruct whole as [|c w]; [congruence|].
    cbn in Hd. apply andb_prop in Hd as [Hc _].
    exists c, (w +:+ "." +:+ frac). split; [reflexivity|now right].
  - exists "-"%char, (whole +:+ "." +:+ frac). split; [reflexivity|now left].
Qed.

(** No timestamp reads as the first header cell. *)
Lemma format3_not_Timestamp t : format3 t <> "Timestamp".
Proof.
  destruct (format3_head t) as (c & rest & Heq & Hc). rewrite Heq.
  intros [= -> _]. destruct Hc as [Hc|Hc]; discriminate.
Qed.

(** *** Reading the rendering back *)

Lemma digit_value_char n : (n < 10)%N -> digit_value (pretty_N_char n) = Z.of_N n.
Proof.
  intros Hn.
  assert (H : n = 0%N \/ n = 1%N \/ n = 2%N \/ n = 3%N \/ n = 4%N \/ n = 5%N
              \/ n = 6%N \/ n = 7%N \/ n = 8%N \/ n = 9%N) by lia.
  destruct H as [->|[->|[->|[->|[->|[->|[->|[->|[->| ->]]]]]]]]]; reflexivity.
Qed.

Lemma pretty_N_char_not_point n : Ascii.eqb (pretty_N_char n) "."%char = false.
Proof.
  unfold pretty_N_char. destruct n as [|p]; [reflexivity|].
  do 4 (destruct p as [p|p|]; try reflexivity).
Qed.

Lemma read_fixed_pretty_go x s :
  read_fixed 0 (pretty_N_go x s) = read_fixed (Z.of_N x) s.
Proof.
  revert s. induction (N.lt_wf_0 x) as [x _ IH]; intros s.
  destruct (decide (x = 0)%N) as [->|Hx]; [reflexivity|].
  rewrite pretty_N_go_step by lia.
  rewrite IH by (apply N.div_lt; lia).
  cbn [read_fixed]. rewrite pretty_N_char_not_point.
  rewrite digit_value_char by (apply N.mod_lt; lia).
  f_equal. pose proof (N.div_mod x 10 ltac:(lia)). lia.
Qed.

Lemma pretty_N_go_app x s r : pretty_N_go x s +:+ r = pretty_N_go x (s +:+ r).
Proof.
  revert s. induction (N.lt_wf_0 x) as [x _ IH]; intros s.
  destruct (decide (x = 0)%N) as [->|Hx]; [now rewrite !pretty_N_go_0|].
  rewrite (pretty_N_go_step x s), (pretty_N_go_step x (s +:+ r)) by lia.
  rewrite IH by (apply N.div_lt; lia). reflexivity.
Qed.

Lemma read_fixed_pretty (n : N) frac :
  read_fixed 0 (pretty n +:+ "." +:+ frac) = Some (Z.of_N n * 1000 + read_digits 0 frac).
Proof.
  unfold pretty, pretty_N.
  destruct (decide (n = 0)%N) as [->|Hn]; [reflexivity|].
  now rewrite pretty_N_go_app, read_fixed_pretty_go.
Qed.

Lemma read_three_digits k : 0 <= k < 1000 -> read_digits 0 (three_digits k) = k.
Proof.
  intros Hk. unfold three_digits, digit. cbn [read_digits].
  assert (H1 : 0 <= k / 100 < 10) by (split; [apply Z.div_pos|apply Z.div_lt_upper_bound]; lia).
  assert (H2 : 0 <= (k / 10) mod 10 < 10) by (apply Z.mod_pos_bound; lia).
  assert (H3 : 0 <= k mod 10 < 10) by (apply Z.mod_pos_bound; lia).
  rewrite !digit_value_char by lia. rewrite !Z2N.id by lia.
  pose proof (Z.div_mod k 10 ltac:(lia)).
  pose proof (Z.div_mod (k / 10) 10 ltac:(lia)).
  assert (k / 10 / 10 = k / 100) by (rewrite Z.div_div by lia; reflexivity).
  lia.
Qed.

Lemma pretty_N_head (n : N) :
  exists c rest, pretty n = String c rest /\ Ascii.eqb c "-"%char = false.
Proof.
  destruct (pretty_N_digits n) as [Hd Hne].
  destruct (pretty n) as [|c rest]; [congruence|].
  exists c, rest. split; [reflexivity|].
  cbn in Hd. apply andb_prop in Hd as [Hc _].
  destruct (Ascii.eqb_spec c "-"%char) as [->|]; [discriminate Hc|reflexivity].
Qed.

(** The rendered text denotes [value_ms]. *)
Lemma read_ms_format3 t : read_ms (format3 t) = Some (value_ms t).
Proof.
  unfold format3, value_ms.
  pose proof (millis_nonneg t) as Hm.
  set (m := millis t) in *.
  assert (Hfix : read_fixed 0 (pretty (Z.to_N (m / 1000)) +:+ "." +:+ three_digits (m mod 1000))
                 = Some m).
  { rewrite read_fixed_pretty, read_three_digits by (apply Z.mod_pos_bound; lia).
    rewrite Z2N.id by (apply Z.div_pos; lia).
    pose proof (Z.div_mod m 1000 ltac:(lia)). f_equal. lia. }
  destruct (t <? 0) eqn:Ht.
  - apply Z.ltb_lt in Ht.
    change (option_map Z.opp
              (read_fixed 0 (pretty (Z.to_N (m / 1000)) +:+ "." +:+ three_digits (m mod 1000)))
            = Some (Z.sgn t * m)).
    rewrite Hfix. cbn [option_map]. f_equal. rewrite Z.sgn_neg by lia. lia.
  - apply Z.ltb_ge in Ht.
    change ("" +:+ pretty (Z.to_N (m / 1000)) +:+ "." +:+ three_digits (m mod 1000))
      with (pretty (Z.to_N (m / 1000)) +:+ "." +:+ three_digits (m mod 1000)).
    destruct (pretty_N_head (Z.to_N (m / 1000))) as (c & rest & Hp & Hc).
    rewrite Hp in *.
    change (String c rest +:+ "." +:+ three_digits (m mod 1000))
      with (String c (rest +:+ "." +:+ three_digits (m mod 1000))) in *.
    unfold read_ms. rewrite Hc, Hfix. f_equal.
    destruct (Z.eq_dec t 0) as [->|Hne]; [reflexivity|].
    rewrite Z.sgn_pos by lia. lia.
Qed.

End StampFacts.

(** ** One pass of the acquisition loop *)

Section PassFacts.
Import Recorder.
Local Open Scope Z_scope.

Variable filename : string.
Variable interval : N.
Variable start_time : Z.

Local Abbreviation body := (iteration_body filename interval start_time).
Local Abbreviation rows := (file_rows filename).
Local Abbreviation loop := (Recorder.loop filename interval start_time).

Ltac run :=
  cbv [iteration_body attempt try_except bind emit elapse outcome
       instrument_write instrument_query sleep time_time writerow flush
       foreground write_out StopRecording trace_of state_of result_of
       produced fetched reading failure completed wrote];
  cbn [fst snd app clock files pending StopEvent
       trg_raises trg_takes settle_over fetch fetch_takes writerow_raises
       flush_raises store_takes interval_over stop_pressed].

Ltac cases it :=
  let tr := fresh "tr" in let wr := fresh "wr" in
  let fr := fresh "fr" in let sp := fresh "sp" in
  let ex := fresh "ex" in let data := fresh "data" in
  destruct it as [tr ? ? [ex|data] ? wr fr ? ? sp];
  destruct tr, wr, fr, sp; run.

Lemma file_rows_write_out st : rows (write_out filename st) = rows st.
Proof.
  unfold file_rows, on_disk, write_out. cbn [files pending].
  rewrite lookup_insert_eq. cbn. now rewrite app_nil_r.
Qed.

(** The [except] clause swallows whatever the body raises. *)
Lemma iteration_body_result it st : result_of (body it st) = Done tt.
Proof. cases it; reflexivity. Qed.

Lemma iteration_body_rows it st :
  rows (state_of (body it st)) = rows st ++ option_list (produced start_time it st).
Proof.
  cases it.
  all: unfold file_rows, on_disk; cbn [files pending].
  all: rewrite ?lookup_insert_eq; cbn [default option_list id];
    rewrite ?app_nil_r, ?app_assoc; reflexivity.
Qed.

Lemma iteration_body_stop it st :
  StopEvent (state_of (body it st)) = StopEvent st || stop_pressed it.
Proof. cases it; now rewrite ?orb_true_r, ?orb_false_r. Qed.

Lemma iteration_body_clock it st :
  clock st <= clock (state_of (body it st))
  /\ (is_Some (produced start_time it st) ->
      clock st + 200000 <= reading it st <= clock (state_of (body it st))).
Proof.
  cases it.
  all: split; [lia|]; intros [r Hr]; try discriminate; unfold settle_us; lia.
Qed.

Lemma iteration_body_other_files it st f :
  f <> filename -> files (state_of (body it st)) !! f = files st !! f.
Proof.
  intros Hf. cases it.
  all: rewrite ?lookup_insert_ne by congruence; reflexivity.
Qed.


(** *** Shape of the calls of one pass *)

Lemma iteration_body_no_poll it st : count is_poll (trace_of (body it st)) = 0%nat.
Proof. cases it; reflexivity. Qed.

Lemma iteration_body_one_trigger it st :
  count is_trigger (trace_of (body it st)) = 1%nat.
Proof. cases it; reflexivity. Qed.

Lemma iteration_body_no_close it st :
  count is_instr_close (trace_of (body it st)) = 0%nat
  /\ count is_file_close (trace_of (body it st)) = 0%nat.
Proof. cases it; split; reflexivity. Qed.

Lemma iteration_body_no_advisory it st :
  count is_advisory (trace_of (body it st)) = 0%nat.
Proof. cases it; reflexivity. Qed.


(** The pass starts with the trigger and ends with the interval sleep. *)
Lemma iteration_body_ends it st :
  exists mid,
    trace_of (body it st) = EvInstrWrite "*TRG" :: mid ++ [EvSleep (Z.of_N interval)].
Proof.
  cases it;
    match goal with
    | |- exists mid, _ :: ?l = _ => exists (removelast l); reflexivity
    end.
Qed.

(** Pressing stop during a pass changes nothing of what the pass does. *)
Lemma iteration_body_in_flight it st :
  trace_of (body it st) = trace_of (body (unpressed it) st).
Proof. cases it; reflexivity. Qed.

(** *** Unfolding the loop *)

Lemma loop_stop sched st :
  StopEvent st = true -> loop sched st = ([EvStopPoll true], st, Done tt).
Proof. intros H. destruct sched; cbn; now rewrite H. Qed.

Lemma loop_nil st :
  StopEvent st = false -> loop [] st = ([EvStopPoll false], st, Running).
Proof. intros H. cbn. now rewrite H. Qed.

Lemma loop_cons it rest st :
  StopEvent st = false ->
  loop (it :: rest) st =
  (EvStopPoll false :: trace_of (body it st) ++ trace_of (loop rest (state_of (body it st))),
   state_of (loop rest (state_of (body it st))),
   result_of (loop rest (state_of (body it st)))).
Proof.
  intros H. cbn [Recorder.loop]. rewrite H.
  pose proof (iteration_body_result it st) as Hr.
  unfold bind at 1. cbn [emit]. unfold bind at 1.
  destruct (body it st) as [[t1 st1] r1]. cbn in Hr. subst r1.
  unfold trace_of, state_of, result_of. cbn [fst snd].
  destruct (Recorder.loop filename interval start_time rest st1) as [[t2 st2] r2].
  reflexivity.
Qed.


Lemma loop_cons_state it rest st :
  StopEvent st = false ->
  state_of (loop (it :: rest) st) = state_of (loop rest (state_of (body it st))).
Proof. intros H. now rewrite loop_cons. Qed.

Lemma loop_cons_trace it rest st :
  StopEvent st = false ->
  trace_of (loop (it :: rest) st) =
  EvStopPoll false :: trace_of (body it st)
  ++ trace_of (loop rest (state_of (body it st))).
Proof. intros H. now rewrite loop_cons. Qed.

(** *** The loop as a whole *)

Lemma loop_result sched st :
  result_of (loop sched st) =
  if terminates (StopEvent st) sched then Done tt else Running.
Proof.
  revert st. induction sched as [|it rest IH]; intros st.
  - unfold terminates. destruct (StopEvent st) eqn:Hs.
    + now rewrite loop_stop.
    + now rewrite loop_nil.
  - unfold terminates. destruct (StopEvent st) eqn:Hs.
    + now rewrite loop_stop.
    + rewrite loop_cons by assumption. unfold result_of at 1. cbn [snd].
      rewrite IH, iteration_body_stop, Hs. reflexivity.
Qed.

Lemma wrote_produced it st :
  wrote it = true <-> is_Some (produced start_time it st).
Proof.
  cases it; split; intros H; try discriminate H; try reflexivity;
    try (eexists; reflexivity); destruct H as [? H]; discriminate H.
Qed.

Lemma stamped_weaken c c' rs :
  c' <= c -> stamped start_time c rs -> stamped start_time c' rs.
Proof.
  intros Hc. destruct rs as [|r rs]; [trivial|].
  intros (now & vs & -> & Hn & Hs). exists now, vs. repeat split; [lia|exact Hs].
Qed.

(** What a run of the loop adds to the rows of the file. *)
Lemma loop_rows sched st :
  exists added,
    rows (state_of (loop sched st)) = rows st ++ added
    /\ length added = length (filter (fun it => wrote it = true)
                               (executed (StopEvent st) sched))
    /\ stamped start_time (clock st) added.
Proof.
  revert st. induction sched as [|it rest IH]; intros st.
  - exists []. destruct (StopEvent st) eqn:Hs.
    + rewrite loop_stop by assumption. cbn. now rewrite app_nil_r.
    + rewrite loop_nil by assumption. cbn. now rewrite app_nil_r.
  - destruct (StopEvent st) eqn:Hs.
    + exists []. rewrite loop_stop by assumption. cbn. now rewrite app_nil_r.
    + rewrite loop_cons by assumption. unfold state_of at 1. cbn [fst snd].
      destruct (IH (state_of (body it st))) as (added & Hrows & Hlen & Hst).
      rewrite Hrows, iteration_body_rows, iteration_body_stop, Hs in *.
      cbn [orb executed] in *.
      pose proof (iteration_body_clock it st) as [Hc Hr].
      pose proof (wrote_produced it st) as Hw.
      destruct (produced start_time it st) as [r|] eqn:Hp.
      * exists (r :: added). rewrite <- app_assoc. split; [reflexivity|].
        assert (Hwt : wrote it = true) by (apply Hw; eauto).
        rewrite filter_cons_True by assumption. cbn [length]. split; [now rewrite Hlen|].
        specialize (Hr ltac:(eauto)).
        assert (Hrow : exists vs, r = Stamp.format3 (reading it st - start_time) :: vs).
        { unfold produced in Hp. destruct (fetched it); [|discriminate].
          destruct (writerow_raises it); [discriminate|]. injection Hp as <-. eauto. }
        destruct Hrow as [vs ->].
        exists (reading it st), vs. repeat split; [lia|].
        eapply stamped_weaken; [|exact Hst]. lia.
      * exists added. cbn [option_list]. rewrite app_nil_r. split; [reflexivity|].
        assert (Hwf : wrote it <> true).
        { intros Hwt. apply Hw in Hwt. destruct Hwt as [? Hwt]. discriminate Hwt. }
        rewrite filter_cons_False by assumption. split; [exact Hlen|].
        eapply stamped_weaken; [|exact Hst]. lia.
Qed.



(** *** The whole run *)

Local Abbreviation record := (RecordMeasurements filename interval start_time).

Lemma RecordMeasurements_run env mode st :
  open_raises env = None -> header_raises env = None ->
  let x := loop (schedule env) (at_loop filename mode st) in
  let pre := EvOpenWrite filename :: EvWriteRow (header_of mode) :: trace_of x in
  record env mode st =
  if terminates (StopEvent st) (schedule env) then
    match file_close_raises env, instr_close_raises env with
    | Some e, _ => (pre ++ [EvFileClose], state_of x, Raises e)
    | None, Some e =>
        (pre ++ [EvFileClose; EvInstrClose], write_out filename (state_of x), Raises e)
    | None, None =>
        (pre ++ [EvFileClose; EvInstrClose; EvStatus "Recording stopped."],
         write_out filename (state_of x), Done tt)
    end
  else (pre, state_of x, Running).
Proof.
  intros Ho Hh x pre.
  pose proof (loop_result (schedule env) (at_loop filename mode st)) as Hres.
  fold x in Hres. cbn [at_loop StopEvent] in Hres.
  unfold RecordMeasurements, with_open, writerow.
  rewrite Ho, Hh.
  cbv [bind emit outcome]. cbn [clock files pending StopEvent app].
  change (State (clock st) (<[filename:=[]]> (files st)) [header_of mode] (StopEvent st))
    with (at_loop filename mode st).
  fold x. destruct x as [[t1 st1] r1]. subst pre.
  unfold trace_of, state_of, result_of in *. cbn [fst snd] in *. subst r1.
  destruct (terminates (StopEvent st) (schedule env)); [|reflexivity].
  destruct (file_close_raises env); [reflexivity|].
  destruct (instr_close_raises env); cbn; rewrite <- ?app_assoc; reflexivity.
Qed.

(** Opening in write mode leaves nothing of what the file held. *)
Lemma at_loop_rows mode st : rows (at_loop filename mode st) = [header_of mode].
Proof.
  unfold file_rows, on_disk, at_loop. cbn [files pending].
  now rewrite lookup_insert_eq.
Qed.


Lemma count_app p t1 t2 : count p (t1 ++ t2) = (count p t1 + count p t2)%nat.
Proof. unfold count. now rewrite filter_app, length_app. Qed.

Lemma count_cons p ev t :
  count p (ev :: t) = ((if p ev then 1 else 0) + count p t)%nat.
Proof.
  unfold count. destruct (p ev) eqn:Hp.
  - now rewrite filter_cons_True.
  - rewrite filter_cons_False; [reflexivity|]. now rewrite Hp.
Qed.

Lemma count_zero_not_in p t ev : count p t = 0%nat -> p ev = true -> ~ In ev t.
Proof.
  induction t as [|x t IH]; intros Hc Hp; [tauto|].
  rewrite count_cons in Hc. intros [->|Hin].
  - rewrite Hp in Hc. discriminate.
  - apply IH; [lia|assumption|assumption].
Qed.

(** Every run of the loop starts by polling the flag. *)
Lemma loop_head sched st :
  exists tl, trace_of (loop sched st) = EvStopPoll (StopEvent st) :: tl.
Proof.
  destruct (StopEvent st) eqn:Hs.
  - rewrite loop_stop by assumption. now exists [].
  - destruct sched as [|it rest].
    + rewrite loop_nil by assumption. now exists [].
    + rewrite loop_cons by assumption. eexists. reflexivity.
Qed.

Lemma completed_produced it st :
  failure it = None ->
  exists data,
    fetch it = inr data
    /\ produced start_time it st =
       Some (Stamp.format3 (reading it st - start_time) :: Text.parse_values data).
Proof.
  cases it; intros H; try discriminate H.
  all: eexists; split; reflexivity.
Qed.



(** ** C1: an error inside a pass *)



(** ** C2: where the stop flag is looked at *)

Lemma split_after_unpolled (t1 t2 pre post : list event) b :
  count is_poll t1 = 0%nat ->
  t1 ++ t2 = pre ++ EvStopPoll b :: post ->
  exists pre', pre = t1 ++ pre' /\ t2 = pre' ++ EvStopPoll b :: post.
Proof.
  revert pre. induction t1 as [|ev t1 IH]; intros pre Hc Heq.
  - exists pre. split; [reflexivity|exact Heq].
  - rewrite count_cons in Hc. destruct pre as [|p pre].
    + cbn in Heq. injection Heq as -> _. cbn in Hc. discriminate.
    + cbn in Heq. injection Heq as -> Heq.
      destruct (IH pre ltac:(lia) Heq) as (pre' & -> & ->).
      exists pre'. split; reflexivity.
Qed.

(** Once a set flag has been polled, the loop makes no further call. *)
Lemma loop_stops_at_set_flag sched st pre post :
  trace_of (loop sched st) = pre ++ EvStopPoll true :: post -> post = [].
Proof.
  revert st pre. induction sched as [|it rest IH]; intros st pre Heq.
  - destruct (StopEvent st) eqn:Hs.
    + rewrite loop_stop in Heq by assumption. cbn in Heq.
      destruct pre as [|p [|q pre]]; cbn in Heq; congruence.
    + rewrite loop_nil in Heq by assumption. cbn in Heq.
      destruct pre as [|p [|q pre]]; cbn in Heq; congruence.
  - destruct (StopEvent st) eqn:Hs.
    + rewrite loop_stop in Heq by assumption. cbn in Heq.
      destruct pre as [|p [|q pre]]; cbn in Heq; congruence.
    + rewrite loop_cons in Heq by assumption. unfold trace_of at 1 in Heq.
      cbn [fst] in Heq. destruct pre as [|p pre]; [discriminate Heq|].
      cbn in Heq. injection Heq as _ Heq.
      apply split_after_unpolled in Heq; [|apply iteration_body_no_poll].
      destruct Heq as (pre' & _ & Heq). eapply IH. exact Heq.
Qed.

Lemma loop_polls sched st :
  count is_poll (trace_of (loop sched st)) = S (length (executed (StopEvent st) sched))
  /\ count is_trigger (trace_of (loop sched st)) = length (executed (StopEvent st) sched).
Proof.
  revert st. induction sched as [|it rest IH]; intros st.
  - destruct (StopEvent st) eqn:Hs.
    + rewrite loop_stop by assumption. split; reflexivity.
    + rewrite loop_nil by assumption. split; reflexivity.
  - destruct (StopEvent st) eqn:Hs.
    + rewrite loop_stop by assumption. split; reflexivity.
    + assert (Htr : trace_of (loop (it :: rest) st) =
                    EvStopPoll false :: trace_of (body it st)
                    ++ trace_of (loop rest (state_of (body it st))))
        by now rewrite loop_cons.
      rewrite Htr.
      rewrite !count_cons, !count_app, iteration_body_no_poll, iteration_body_one_trigger.
      destruct (IH (state_of (body it st))) as [IHp IHt].
      rewrite IHp, IHt, iteration_body_stop, Hs. cbn [orb executed is_poll is_trigger length].
      split; lia.
Qed.

(** C2. The flag is read at the top of the loop and nowhere else. If it is
    set there, the loop returns at once, having made no call but the poll; if
    it is clear, the pass that follows runs all its calls, from the trigger to
    the interval sleep, exactly as if stop had not been pressed meanwhile, and
    only the next poll sees the flag. Over a whole run there is one poll per
    pass started plus the final one, and nothing follows a poll that found the
    flag set. *)
Theorem stop_polled_at_top sched st :
  let x := loop sched st in
  (StopEvent st = true -> x = ([EvStopPoll true], st, Done tt))
  /\ (forall it rest, sched = it :: rest -> StopEvent st = false ->
      let p := body it st in
      trace_of x =
        EvStopPoll false :: trace_of p ++ trace_of (loop rest (state_of p))
      /\ count is_poll (trace_of p) = 0%nat
      /\ trace_of p = trace_of (body (unpressed it) st)
      /\ (exists mid, trace_of p =
                      EvInstrWrite "*TRG" :: mid ++ [EvSleep (Z.of_N interval)])
      /\ StopEvent (state_of p) = stop_pressed it
      /\ (stop_pressed it = true ->
          loop rest (state_of p) = ([EvStopPoll true], state_of p, Done tt)))
  /\ (exists tl, trace_of x = EvStopPoll (StopEvent st) :: tl)
  /\ count is_poll (trace_of x) = S (count is_trigger (trace_of x))
  /\ count is_trigger (trace_of x) = length (executed (StopEvent st) sched)
  /\ (forall pre post, trace_of x = pre ++ EvStopPoll true :: post -> post = []).
Proof.
  intros x. subst x. split; [apply loop_stop|]. split.
  { intros it rest -> Hs p. subst p.
    split; [now rewrite loop_cons|].
    split; [apply iteration_body_no_poll|].
    split; [apply iteration_body_in_flight|].
    split; [apply iteration_body_ends|].
    assert (Hst : StopEvent (state_of (body it st)) = stop_pressed it)
      by now rewrite iteration_body_stop, Hs.
    split; [exact Hst|].
    intros Hp. apply loop_stop. now rewrite Hst. }
  split; [apply loop_head|].
  destruct (loop_polls sched st) as [Hp Ht].
  split; [now rewrite Hp, Ht|]. split; [exact Ht|].
  apply loop_stops_at_set_flag.
Qed.

(** ** C3: how many rows, and in which order *)




(** ** The header table *)

Lemma HeaderMapping_entry mode h :
  HeaderMapping !! mode = Some h -> In (mode, h) header_table.
Proof.
  intros H. apply elem_of_list_to_map_2 in H. now apply list_elem_of_In.
Qed.

Lemma header_of_head mode :
  exists cols, header_of mode = "Timestamp" :: cols /\ cols <> [].
Proof.
  unfold header_of. destruct (HeaderMapping !! mode) as [h|] eqn:Hl.
  - apply HeaderMapping_entry in Hl. cbn in Hl.
    repeat (destruct Hl as [[= <- <-]|Hl]; [cbn; eexists; split; [reflexivity|discriminate]|]).
    destruct Hl.
  - cbn. eexists; split; [reflexivity|discriminate].
Qed.

Lemma header_of_length mode :
  length (header_of mode) = (1 + expected_values mode)%nat.
Proof.
  unfold expected_values. destruct (header_of_head mode) as (cols & -> & _).
  cbn [length]. lia.
Qed.

Lemma unlisted_mode_lookup mode :
  ~ In mode mode_options -> HeaderMapping !! mode = None.
Proof.
  intros Hn. apply not_elem_of_list_to_map_1. rewrite list_elem_of_In.
  cbn in *. tauto.
Qed.

Lemma listed_mode_lookup mode :
  In mode mode_options -> HeaderMapping !! mode = Some (header_of mode).
Proof.
  cbn. intros H.
  repeat (destruct H as [<-|H]; [vm_compute; reflexivity|]). destruct H.
Qed.

(** ** The run as a whole: what it leaves in the file, what it calls *)

Lemma stamped_not_header c added mode :
  stamped start_time c added -> Forall (fun r => r <> header_of mode) added.
Proof.
  revert c. induction added as [|r added IH]; intros c Hs; [constructor|].
  destruct Hs as (now & vs & -> & _ & Hs). constructor; [|eapply IH; exact Hs].
  destruct (header_of_head mode) as (cols & -> & _).
  intros [= Heq _]. now apply format3_not_Timestamp in Heq.
Qed.

Lemma record_state_rows env mode st :
  open_raises env = None -> header_raises env = None ->
  rows (state_of (record env mode st)) =
  rows (state_of (loop (schedule env) (at_loop filename mode st))).
Proof.
  intros Ho Hh. rewrite (RecordMeasurements_run env mode st Ho Hh).
  destruct (terminates _ _); [|reflexivity].
  destruct (file_close_raises env); [reflexivity|].
  destruct (instr_close_raises env); unfold state_of; cbn [fst snd];
    apply file_rows_write_out.
Qed.

Lemma record_rows env mode st :
  open_raises env = None -> header_raises env = None ->
  exists data,
    rows (state_of (record env mode st)) = header_of mode :: data
    /\ stamped start_time (clock st) data
    /\ length data = length (filter (fun it => wrote it = true)
                              (executed (StopEvent st) (schedule env))).
Proof.
  intros Ho Hh. rewrite record_state_rows by assumption.
  destruct (loop_rows (schedule env) (at_loop filename mode st))
    as (added & Hrows & Hlen & Hst).
  exists added. rewrite Hrows, at_loop_rows. auto.
Qed.

Lemma loop_quiet_counts sched st :
  count is_instr_close (trace_of (loop sched st)) = 0%nat
  /\ count is_file_close (trace_of (loop sched st)) = 0%nat
  /\ count is_advisory (trace_of (loop sched st)) = 0%nat.
Proof.
  revert st. induction sched as [|it rest IH]; intros st.
  - destruct (StopEvent st) eqn:Hs.
    + rewrite loop_stop by assumption. repeat split.
    + rewrite loop_nil by assumption. repeat split.
  - destruct (StopEvent st) eqn:Hs.
    + rewrite loop_stop by assumption. repeat split.
    + assert (Htr : trace_of (loop (it :: rest) st) =
                    EvStopPoll false :: trace_of (body it st)
                    ++ trace_of (loop rest (state_of (body it st))))
        by now rewrite loop_cons.
      rewrite Htr, !count_cons, !count_app.
      destruct (IH (state_of (body it st))) as (-> & -> & ->).
      destruct (iteration_body_no_close it st) as [-> ->].
      rewrite iteration_body_no_advisory. repeat split.
Qed.

Lemma iteration_body_no_status it st : count is_status (trace_of (body it st)) = 0%nat.
Proof. cases it; reflexivity. Qed.

Lemma loop_no_status sched st : count is_status (trace_of (loop sched st)) = 0%nat.
Proof.
  revert st. induction sched as [|it rest IH]; intros st.
  - destruct (StopEvent st) eqn:Hs.
    + now rewrite loop_stop.
    + now rewrite loop_nil.
  - destruct (StopEvent st) eqn:Hs.
    + now rewrite loop_stop.
    + rewrite loop_cons_trace by assumption.
      now rewrite count_cons, count_app, IH, iteration_body_no_status.
Qed.

(** *** The loop does not look at what the file holds *)

Lemma iteration_body_frame it st1 st2 :
  clock st1 = clock st2 ->
  trace_of (body it st1) = trace_of (body it st2)
  /\ clock (state_of (body it st1)) = clock (state_of (body it st2))
  /\ produced start_time it st1 = produced start_time it st2.
Proof.
  destruct st1 as [c1 f1 p1 s1], st2 as [c2 f2 p2 s2]. cbn [clock]. intros ->.
  cases it; repeat split.
Qed.

Lemma loop_frame sched st1 st2 :
  clock st1 = clock st2 -> StopEvent st1 = StopEvent st2 ->
  result_of (loop sched st1) = result_of (loop sched st2)
  /\ exists added,
       rows (state_of (loop sched st1)) = rows st1 ++ added
       /\ rows (state_of (loop sched st2)) = rows st2 ++ added.
Proof.
  revert st1 st2. induction sched as [|it rest IH]; intros st1 st2 Hc Hs.
  - split; [now rewrite !loop_result, Hs|]. exists [].
    destruct (StopEvent st2) eqn:Hs2.
    + rewrite !loop_stop by assumption. cbn. now rewrite !app_nil_r.
    + rewrite !loop_nil by assumption. cbn. now rewrite !app_nil_r.
  - split; [now rewrite !loop_result, Hs|].
    destruct (StopEvent st2) eqn:Hs2.
    + exists []. rewrite !loop_stop by assumption. cbn. now rewrite !app_nil_r.
    + rewrite !loop_cons_state by congruence.
      destruct (iteration_body_frame it st1 st2 Hc) as (_ & Hc' & Hp).
      destruct (IH (state_of (body it st1)) (state_of (body it st2)) Hc') as [_ (added & H1 & H2)].
      { now rewrite !iteration_body_stop, Hs, Hs2. }
      exists (option_list (produced start_time it st2) ++ added).
      rewrite H1, H2, !iteration_body_rows, Hp, !app_assoc. split; reflexivity.
Qed.

(** ** C4: the header row *)

(** C4. In every run whose file could be opened and whose header write
    returned, the header is the first row handed to the writer, before the
    loop is entered, it is the first row of the file and no later row equals
    it. For every mode the header starts with the timestamp column and has one
    column more than the values expected per reading: two value columns for
    Z-deg and R-X, one for C, L, Q, D and DCR; for C it is
    Timestamp, Capacitance (F). *)
Theorem header_once_before_rows env mode st :
  open_raises env = None -> header_raises env = None ->
  let x := record env mode st in
  (exists tl, trace_of x = EvOpenWrite filename :: EvWriteRow (header_of mode)
                           :: EvStopPoll (StopEvent st) :: tl)
  /\ (exists data, rows (state_of x) = header_of mode :: data
                  /\ Forall (fun r => r <> header_of mode) data)
  /\ (exists cols, header_of mode = "Timestamp" :: cols
                  /\ length cols = expected_values mode)
  /\ length (header_of mode) = (1 + expected_values mode)%nat
  /\ (In mode ["Z-deg"; "R-X"] -> expected_values mode = 2%nat)
  /\ (In mode ["C"; "L"; "Q"; "D"; "DCR"] -> expected_values mode = 1%nat)
  /\ header_of "C" = ["Timestamp"; "Capacitance (F)"].
Proof.
  intros Ho Hh x. subst x. split.
  { rewrite (RecordMeasurements_run env mode st Ho Hh).
    destruct (loop_head (schedule env) (at_loop filename mode st)) as [tl Htl].
    cbn [at_loop StopEvent] in Htl.
    destruct (terminates _ _);
      [destruct (file_close_raises env); [|destruct (instr_close_raises env)]|];
      unfold trace_of at 1; cbn [fst]; rewrite Htl; cbn [app]; eauto. }
  split.
  { destruct (record_rows env mode st Ho Hh) as (data & Hrows & Hst & _).
    exists data. split; [exact Hrows|]. eapply stamped_not_header. exact Hst. }
  split.
  { destruct (header_of_head mode) as (cols & Hc & _). exists cols.
    split; [exact Hc|]. unfold expected_values. rewrite Hc. cbn [length]. lia. }
  split; [apply header_of_length|].
  split; [|split; [|reflexivity]].
  - cbn. intros [<-|[<-|[]]]; reflexivity.
  - cbn. intros [<-|[<-|[<-|[<-|[<-|[]]]]]]; reflexivity.
Qed.

(** ** C5: the row of a completed pass *)

Lemma iteration_body_time it st :
  is_Some (produced start_time it st) -> In (EvTime (reading it st)) (trace_of (body it st)).
Proof.
  cases it; intros [r Hr]; try discriminate Hr.
  all: rewrite <- ?Z.add_assoc; cbn; tauto.
Qed.

(** ** C7: a reading with more or fewer values than the header has columns *)

(** C7, as amended. When a completed pass fetched a number of values other
    than the one expected for the mode, its row is written as received, and
    nothing is printed about the mismatch: the script has the warning
    commented out, and no run prints it. *)
Theorem ragged_row_written_silently it st mode s :
  failure it = None -> fetch it = inr s ->
  length (Text.parse_values s) <> expected_values mode ->
  let x := body it st in
  (forall ev, In ev (trace_of x) -> is_advisory ev = false)
  /\ (exists ts, rows (state_of x) = rows st ++ [ts :: Text.parse_values s]
                /\ length (ts :: Text.parse_values s) <> length (header_of mode))
  /\ (forall sched st', forall ev,
        In ev (trace_of (loop sched st')) -> is_advisory ev = false).
Proof.
  intros Hf Hs Hne x. subst x. split.
  { intros ev Hin. destruct (is_advisory ev) eqn:Ha; [|reflexivity].
    exfalso. eapply count_zero_not_in; [apply iteration_body_no_advisory|exact Ha|exact Hin]. }
  split.
  { destruct (completed_produced it st Hf) as (d & Hd & Hp).
    rewrite Hs in Hd. injection Hd as <-.
    eexists. split; [now rewrite iteration_body_rows, Hp|].
    rewrite header_of_length. cbn [length]. lia. }
  intros sched st' ev Hin. destruct (is_advisory ev) eqn:Ha; [|reflexivity].
  exfalso. destruct (loop_quiet_counts sched st') as (_ & _ & Hz).
  eapply count_zero_not_in; [exact Hz|exact Ha|exact Hin].
Qed.

(** ** C8: closing the instrument *)

Lemma loop_ends_with_poll sched st :
  terminates (StopEvent st) sched = true ->
  exists pre, trace_of (loop sched st) = pre ++ [EvStopPoll true].
Proof.
  revert st. induction sched as [|it rest IH]; intros st Ht.
  - unfold terminates in Ht. cbn in Ht. rewrite orb_false_r in Ht.
    rewrite loop_stop by assumption. now exists [].
  - destruct (StopEvent st) eqn:Hs.
    + rewrite loop_stop by assumption. now exists [].
    + rewrite loop_cons_trace by assumption.
      destruct (IH (state_of (body it st))) as [pre Hpre].
      { rewrite iteration_body_stop, Hs. exact Ht. }
      rewrite Hpre. exists (EvStopPoll false :: trace_of (body it st) ++ pre).
      cbn [app]. now rewrite <- app_assoc.
Qed.

(** C8, as amended. When the loop has seen the stop flag set, whatever the
    passes before did, and the file has been closed without error, the
    instrument is closed exactly once, right after the file. That close is a
    bare call: if it raises, the error is the result of the thread function,
    and the status line is not updated. *)
Theorem transport_closed_on_stop env mode st :
  open_raises env = None -> header_raises env = None ->
  terminates (StopEvent st) (schedule env) = true ->
  file_close_raises env = None ->
  let x := record env mode st in
  count is_instr_close (trace_of x) = 1%nat
  /\ count is_file_close (trace_of x) = 1%nat
  /\ (exists pre post,
        trace_of x = pre ++ EvStopPoll true :: EvFileClose :: EvInstrClose :: post)
  /\ result_of x =
     match instr_close_raises env with
     | Some e => Raises e
     | None => Done tt
     end
  /\ count is_status (trace_of x) =
     match instr_close_raises env with Some _ => 0%nat | None => 1%nat end.
Proof.
  intros Ho Hh Ht Hc x. subst x.
  rewrite (RecordMeasurements_run env mode st Ho Hh), Ht, Hc.
  destruct (loop_quiet_counts (schedule env) (at_loop filename mode st)) as (Hi & Hf & _).
  pose proof (loop_no_status (schedule env) (at_loop filename mode st)) as Hs.
  destruct (loop_ends_with_poll (schedule env) (at_loop filename mode st) Ht) as [pre Hpre].
  set (t := trace_of (loop (schedule env) (at_loop filename mode st))) in *.
  clearbody t.
  destruct (instr_close_raises env) as [e|];
    unfold trace_of, result_of; cbn [fst snd];
    repeat (rewrite count_app || rewrite count_cons); rewrite Hi, Hf, Hs;
    (split; [reflexivity|]); (split; [reflexivity|]);
    (split; [rewrite Hpre; cbn [app]; rewrite <- app_assoc;
             eexists (_ :: _ :: pre), _; cbn [app]; reflexivity|]);
    (split; [reflexivity|]); reflexivity.
Qed.

(** ** C9: a mode the table does not list *)

(** ** C10: the file is created anew, then only grows *)

Lemma iteration_body_disk it st :
  exists more, on_disk filename (state_of (body it st)) = on_disk filename st ++ more.
Proof.
  cases it; unfold on_disk, file_rows, on_disk; cbn [files pending];
    rewrite ?lookup_insert_eq; cbn [default];
    first [ exists []; now rewrite app_nil_r | eexists; reflexivity ].
Qed.

Lemma iteration_body_write_then_flush it st :
  is_Some (produced start_time it st) ->
  exists pre r post,
    trace_of (body it st) = pre ++ EvWriteRow r :: EvFlush :: post
    /\ count is_write pre = 0%nat /\ count is_write post = 0%nat.
Proof.
  cases it; intros [r Hr]; try discriminate Hr.
  all: eexists (_ :: _ :: _ :: _ :: nil), _, _; cbn [app];
    split; [reflexivity|split; reflexivity].
Qed.

Lemma iteration_body_flushed it st :
  failure it = None ->
  pending (state_of (body it st)) = []
  /\ on_disk filename (state_of (body it st)) = rows (state_of (body it st)).
Proof.
  cases it; intros H; try discriminate H.
  all: unfold file_rows, on_disk; cbn [files pending];
    rewrite ?lookup_insert_eq; cbn [default]; now rewrite ?app_nil_r.
Qed.


(** *** The rows of a run, pass by pass *)

Lemma produced_row_of_pass it st r :
  produced start_time it st = Some r -> Thread.row_of_pass r it.
Proof.
  unfold produced, Thread.row_of_pass. destruct (fetched it) as [d|]; [|discriminate].
  destruct (writerow_raises it); [discriminate|]. intros [= <-]. eauto.
Qed.

Lemma loop_rows_detail sched st :
  exists added,
    rows (state_of (loop sched st)) = rows st ++ added
    /\ Forall2 Thread.row_of_pass added
         (filter (fun it => wrote it = true) (executed (StopEvent st) sched)).
Proof.
  revert st. induction sched as [|it rest IH]; intros st.
  - exists []. destruct (StopEvent st) eqn:Hs.
    + rewrite loop_stop by assumption. cbn. rewrite app_nil_r. split; [reflexivity|constructor].
    + rewrite loop_nil by assumption. cbn. rewrite app_nil_r. split; [reflexivity|constructor].
  - destruct (StopEvent st) eqn:Hs.
    + exists []. rewrite loop_stop by assumption. cbn. rewrite app_nil_r.
      split; [reflexivity|constructor].
    + rewrite loop_cons_state by assumption.
      destruct (IH (state_of (body it st))) as (added & Hrows & Hdet).
      rewrite Hrows, iteration_body_rows. rewrite iteration_body_stop, Hs in Hdet.
      cbn [orb executed] in *.
      pose proof (wrote_produced it st) as Hw.
      destruct (produced start_time it st) as [r|] eqn:Hp.
      * exists (r :: added). rewrite <- app_assoc. split; [reflexivity|].
        rewrite filter_cons_True by (apply Hw; eauto).
        constructor; [now apply (produced_row_of_pass it st)|exact Hdet].
      * exists added. cbn [option_list]. rewrite app_nil_r. split; [reflexivity|].
        rewrite filter_cons_False; [exact Hdet|].
        intros Hwt. apply Hw in Hwt. destruct Hwt as [? Hwt]. discriminate Hwt.
Qed.
End PassFacts.

(** ** Splitting and trimming the instrument's answer *)

Section TextMore.
Import Text More Blank.

Lemma split_cons_cases sep c s :
  (Ascii.eqb c sep = true /\ split sep (String c s) = EmptyString :: split sep s)
  \/ (Ascii.eqb c sep = false /\
      exists f fs, split sep s = f :: fs /\ split sep (String c s) = String c f :: fs).
Proof.
  cbn [split]. destruct (Ascii.eqb c sep); [left; split; reflexivity|right].
  split; [reflexivity|].
  destruct (split sep s) as [|f fs] eqn:Hs; [now apply split_nonempty in Hs|].
  eauto.
Qed.

Lemma join_cons f g gs : join (f :: g :: gs) = f +:+ "," +:+ join (g :: gs).
Proof. reflexivity. Qed.

Lemma split_join_comma s : join (split comma s) = s.
Proof.
  induction s as [|c s IH]; [reflexivity|].
  destruct (split_cons_cases comma c s) as [[Hc ->]|[Hc (f & fs & Hs & ->)]].
  - apply Ascii.eqb_eq in Hc. subst c.
    destruct (split comma s) as [|g gs] eqn:Hs; [now apply split_nonempty in Hs|].
    rewrite join_cons, IH. reflexivity.
  - rewrite Hs in IH. destruct fs as [|g gs].
    + cbn in IH |- *. now rewrite IH.
    + rewrite join_cons in *. rewrite <- IH. reflexivity.
Qed.

Lemma split_fields_no_comma s :
  Forall (fun f => occurrences comma f = 0%nat) (split comma s).
Proof.
  induction s as [|c s IH]; [repeat constructor|].
  destruct (split_cons_cases comma c s) as [[Hc ->]|[Hc (f & fs & Hs & ->)]].
  - constructor; [reflexivity|exact IH].
  - rewrite Hs in IH. inversion IH as [|? ? Hf Hfs]; subst.
    constructor; [|exact Hfs]. cbn [occurrences]. now rewrite Hc, Hf.
Qed.

Lemma split_length s : length (split comma s) = S (occurrences comma s).
Proof.
  induction s as [|c s IH]; [reflexivity|].
  destruct (split_cons_cases comma c s) as [[Hc ->]|[Hc (f & fs & Hs & ->)]];
    cbn [occurrences length]; rewrite Hc.
  - now rewrite IH.
  - rewrite Hs in IH. cbn [length] in IH. now rewrite IH.
Qed.

(** X9. [split(',')] cuts at every comma and nowhere else: putting the commas back
    gives the text, no field holds a comma, and there is one field more than
    there are commas, so never an empty list. *)
Theorem split_at_every_comma s :
  join (split comma s) = s
  /\ Forall (fun f => occurrences comma f = 0%nat) (split comma s)
  /\ length (split comma s) = S (occurrences comma s).
Proof.
  split; [apply split_join_comma|]. split; [apply split_fields_no_comma|apply split_length].
Qed.

(** *** What [strip] takes away *)

Lemma lstrip_split s :
  exists lead, s = lead +:+ lstrip s /\ blank lead = true.
Proof.
  induction s as [|c s (lead & IH & Hb)]; [now exists EmptyString|].
  cbn [lstrip]. destruct (isspace c) eqn:Hc.
  - exists (String c lead).
    split; [change (String c s = String c (lead +:+ lstrip s)); f_equal; exact IH|].
    cbn [blank]. now rewrite Hc, Hb.
  - now exists EmptyString.
Qed.

Lemma lstrip_first s c : first_char (lstrip s) = Some c -> isspace c = false.
Proof.
  induction s as [|d s IH]; [discriminate|].
  cbn [lstrip]. destruct (isspace d) eqn:Hd; [exact IH|].
  cbn. intros [= <-]. exact Hd.
Qed.

Lemma rstrip_empty_blank s : rstrip s = EmptyString -> blank s = true.
Proof.
  induction s as [|c s IH]; [reflexivity|].
  rewrite rstrip_cons. destruct (isspace c) eqn:Hc; cbn [andb]; [|discriminate].
  destruct (rstrip s) eqn:Hr; cbn [is_empty]; [|discriminate].
  intros _. cbn [blank]. now rewrite Hc, IH.
Qed.

Lemma rstrip_split s :
  exists trail, s = rstrip s +:+ trail /\ blank trail = true.
Proof.
  induction s as [|c s (trail & IH & Hb)]; [now exists EmptyString|].
  rewrite rstrip_cons.
  destruct (isspace c && is_empty (rstrip s)) eqn:Hcond.
  - exists (String c s). split; [reflexivity|].
    apply andb_prop in Hcond as [Hc He]. cbn [blank]. rewrite Hc. cbn [andb].
    apply rstrip_empty_blank. destruct (rstrip s); [reflexivity|discriminate].
  - exists trail.
    split; [change (String c s = String c (rstrip s +:+ trail)); f_equal; exact IH|exact Hb].
Qed.

Lemma rstrip_last s c : last_char (rstrip s) = Some c -> isspace c = false.
Proof.
  induction s as [|d s IH]; [discriminate|].
  rewrite rstrip_cons.
  destruct (isspace d && is_empty (rstrip s)) eqn:Hcond; [discriminate|].
  destruct (rstrip s) as [|e r] eqn:Hr.
  - cbn. intros [= <-]. cbn [is_empty] in Hcond. now rewrite andb_true_r in Hcond.
  - exact IH.
Qed.

Lemma rstrip_first s c :
  first_char s = Some c -> isspace c = false -> first_char (rstrip s) = Some c.
Proof.
  destruct s as [|d s]; [discriminate|]. cbn. intros [= ->] Hc.
  now rewrite Hc.
Qed.

Lemma strip_margins s :
  exists lead trail,
    s = lead +:+ strip s +:+ trail
    /\ blank lead = true /\ blank trail = true
    /\ (forall c, first_char (strip s) = Some c -> isspace c = false)
    /\ (forall c, last_char (strip s) = Some c -> isspace c = false).
Proof.
  destruct (lstrip_split s) as (lead & Hl & Hbl).
  destruct (rstrip_split (lstrip s)) as (trail & Hr & Hbt).
  exists lead, trail. unfold strip.
  split; [now rewrite <- Hr|]. split; [exact Hbl|]. split; [exact Hbt|].
  split; [|apply rstrip_last].
  intros c Hc. destruct (lstrip s) as [|d r] eqn:Hls; [discriminate Hc|].
  assert (Hd : isspace d = false) by (apply (lstrip_first s); now rewrite Hls).
  rewrite (rstrip_first (String d r) d eq_refl Hd) in Hc. now injection Hc as <-.
Qed.

(** X10. [strip] on an answer of the instrument, which is ASCII text, removes
    white space at the two ends and nothing else: the text is the stripped
    text between two runs of white space, and the stripped text neither
    starts nor ends with a white-space character. *)
Theorem strip_takes_only_the_margins s :
  exists lead trail,
    s = lead +:+ strip s +:+ trail
    /\ blank lead = true /\ blank trail = true
    /\ (forall c, first_char (strip s) = Some c -> isspace c = false)
    /\ (forall c, last_char (strip s) = Some c -> isspace c = false).
Proof. apply strip_margins. Qed.

(** *** The values of a reading *)

Lemma occurrences_lstrip s : occurrences comma (lstrip s) = occurrences comma s.
Proof.
  induction s as [|c s IH]; [reflexivity|].
  cbn [lstrip occurrences]. destruct (isspace c) eqn:Hc; [|reflexivity].
  now rewrite (space_not_comma _ Hc), IH.
Qed.

Lemma occurrences_blank s : blank s = true -> occurrences comma s = 0%nat.
Proof.
  induction s as [|c s IH]; [reflexivity|].
  cbn [blank occurrences]. intros H. apply andb_prop in H as [Hc Hs].
  now rewrite (space_not_comma _ Hc), IH.
Qed.

Lemma occurrences_app c a b :
  occurrences c (a +:+ b) = (occurrences c a + occurrences c b)%nat.
Proof.
  induction a as [|x a IH]; [reflexivity|].
  change (occurrences c (String x (a +:+ b))
          = (occurrences c (String x a) + occurrences c b)%nat).
  cbn [occurrences]. rewrite IH. lia.
Qed.

Lemma occurrences_rstrip s : occurrences comma (rstrip s) = occurrences comma s.
Proof.
  destruct (rstrip_split s) as (trail & Hs & Hb).
  rewrite Hs at 2. rewrite occurrences_app, (occurrences_blank _ Hb). lia.
Qed.

Lemma occurrences_strip s : occurrences comma (strip s) = occurrences comma s.
Proof. unfold strip. now rewrite occurrences_rstrip, occurrences_lstrip. Qed.

Lemma strip_idem s : strip (strip s) = strip s.
Proof. unfold strip at 2. now rewrite strip_rstrip, strip_lstrip. Qed.

Lemma split_no_comma s : occurrences comma s = 0%nat -> split comma s = [s].
Proof.
  induction s as [|c s IH]; [reflexivity|].
  cbn [occurrences split]. destruct (Ascii.eqb c comma); [discriminate|].
  intros H. now rewrite IH.
Qed.

(** X11. The values written for a reading: one more than the answer has commas,
    each free of commas and of white space at its ends, so that parsing a
    value again gives that value alone. An empty answer still gives one
    (empty) value. *)
Theorem parse_values_clean data :
  length (parse_values data) = S (occurrences comma data)
  /\ Forall (fun v => strip v = v
                      /\ occurrences comma v = 0%nat
                      /\ parse_values v = [v])
       (parse_values data).
Proof.
  split.
  { unfold parse_values. now rewrite length_map, split_length, occurrences_strip. }
  unfold parse_values at 1. apply Forall_forall. intros v Hin.
  apply list_elem_of_In, in_map_iff in Hin as (f & <- & Hf).
  pose proof (split_fields_no_comma (strip data)) as Hno.
  rewrite Forall_forall in Hno. apply list_elem_of_In in Hf. specialize (Hno f Hf).
  assert (Hc : occurrences comma (strip f) = 0%nat) by now rewrite occurrences_strip.
  split; [apply strip_idem|]. split; [exact Hc|].
  unfold parse_values. rewrite strip_idem, (split_no_comma _ Hc). cbn. now rewrite strip_idem.
Qed.

End TextMore.

(** ** The thread for any interval *)

Section ThreadFacts.
Import Recorder.
Local Open Scope Z_scope.

Variable filename : string.
Variable start_time : Z.

Local Abbreviation rows := (file_rows filename).
Local Abbreviation pass := (Thread.pass filename start_time).
Local Abbreviation tloop := (Thread.loop filename start_time).
Local Abbreviation trecord := (Thread.RecordMeasurements filename start_time).

Ltac unfold_calls :=
  cbv [Thread.guarded iteration_body attempt try_except bind emit elapse outcome
       instrument_write instrument_query sleep time_time writerow flush
       foreground write_out StopRecording trace_of state_of result_of
       produced fetched reading failure completed wrote];
  cbn [fst snd app clock files pending StopEvent
       trg_raises trg_takes settle_over fetch fetch_takes writerow_raises
       flush_raises store_takes interval_over stop_pressed].

Ltac each_pass it :=
  let tr := fresh "tr" in let wr := fresh "wr" in
  let fr := fresh "fr" in let sp := fresh "sp" in
  let ex := fresh "ex" in let data := fresh "data" in
  destruct it as [tr ? ? [ex|data] ? wr fr ? ? sp];
  destruct tr, wr, fr, sp; unfold_calls.

(** With an interval the sleep takes, the pass is the pass of [Recorder]. *)
Lemma pass_taken x us it st :
  Thread.sleep_outcome x = inr us ->
  pass x it st = iteration_body filename us start_time it st.
Proof.
  intros Hx. unfold Thread.pass, Thread.interval_sleep. rewrite Hx.
  each_pass it; reflexivity.
Qed.

(** With an interval the sleep refuses, the pass does its [try] statement
    and then raises. *)
Lemma pass_refused x e it st :
  Thread.sleep_outcome x = inl e ->
  result_of (pass x it st) = Raises e
  /\ (forall us,
        trace_of (iteration_body filename us start_time it st)
        = trace_of (pass x it st) ++ [EvSleep (Z.of_N us)])
  /\ rows (state_of (pass x it st)) = rows st ++ option_list (produced start_time it st)
  /\ StopEvent (state_of (pass x it st)) = StopEvent st || stop_pressed it
  /\ clock st <= clock (state_of (pass x it st))
  /\ (is_Some (produced start_time it st) ->
      clock st + 200000 <= reading it st <= clock (state_of (pass x it st))).
Proof.
  intros Hx. unfold Thread.pass, Thread.interval_sleep. rewrite Hx.
  each_pass it.
  all: split; [reflexivity|]; split; [reflexivity|].
  all: unfold file_rows, on_disk; cbn [files pending].
  all: rewrite ?lookup_insert_eq; cbn [default option_list id];
    rewrite ?app_nil_r, ?app_assoc, ?orb_true_r, ?orb_false_r.
  all: split; [reflexivity|]; split; [reflexivity|]; split; [lia|].
  all: intros [r Hr]; try discriminate Hr; unfold settle_us; lia.
Qed.

Lemma tloop_stop x sched st :
  StopEvent st = true -> tloop x sched st = ([EvStopPoll true], st, Done tt).
Proof. intros H. destruct sched; cbn; now rewrite H. Qed.

Lemma tloop_nil x st :
  StopEvent st = false -> tloop x [] st = ([EvStopPoll false], st, Running).
Proof. intros H. cbn. now rewrite H. Qed.

Lemma tloop_taken x us sched st :
  Thread.sleep_outcome x = inr us ->
  tloop x sched st = loop filename us start_time sched st.
Proof.
  intros Hx. revert st. induction sched as [|it rest IH]; intros st.
  - reflexivity.
  - cbn [Thread.loop loop]. destruct (StopEvent st); [reflexivity|].
    unfold bind at 1 3. cbn [emit]. unfold bind at 1 2.
    rewrite (pass_taken x us it st Hx).
    destruct (iteration_body filename us start_time it st) as [[t1 s1] [[]|e|]];
      try reflexivity.
    now rewrite IH.
Qed.

Lemma tloop_refused x e it rest st :
  Thread.sleep_outcome x = inl e -> StopEvent st = false ->
  tloop x (it :: rest) st =
  (EvStopPoll false :: trace_of (pass x it st), state_of (pass x it st), Raises e).
Proof.
  intros Hx Hs. cbn [Thread.loop]. rewrite Hs.
  destruct (pass_refused x e it st Hx) as (Hr & _).
  unfold bind at 1. cbn [emit]. unfold bind at 1.
  destruct (pass x it st) as [[t1 s1] r1]. cbn in Hr. subst r1. reflexivity.
Qed.

Lemma trecord_taken x us env mode st :
  Thread.sleep_outcome x = inr us ->
  trecord x env mode st = RecordMeasurements filename us start_time env mode st.
Proof.
  intros Hx. unfold Thread.RecordMeasurements, RecordMeasurements, with_open.
  cbv [bind emit outcome writerow].
  destruct (open_raises env); [reflexivity|].
  destruct (header_raises env); [reflexivity|].
  cbn [clock files pending StopEvent].
  now rewrite (tloop_taken x us _ _ Hx).
Qed.

Lemma tloop_result x sched st :
  result_of (tloop x sched st) = Thread.ending x (StopEvent st) sched.
Proof.
  unfold Thread.ending. destruct (Thread.sleep_outcome x) as [e|us] eqn:Hx.
  - destruct (StopEvent st) eqn:Hs; [now rewrite tloop_stop|].
    destruct sched as [|it rest]; [now rewrite tloop_nil|].
    now rewrite (tloop_refused x e it rest st Hx Hs).
  - rewrite (tloop_taken x us sched st Hx). apply loop_result.
Qed.


(** *** One pass, for any interval *)

Ltac both_ways x it :=
  unfold Thread.pass, Thread.interval_sleep;
  destruct (Thread.sleep_outcome x); each_pass it.

Lemma pass_rows x it st :
  rows (state_of (pass x it st)) = rows st ++ option_list (produced start_time it st).
Proof.
  both_ways x it.
  all: unfold file_rows, on_disk; cbn [files pending].
  all: rewrite ?lookup_insert_eq; cbn [default option_list id];
    rewrite ?app_nil_r, ?app_assoc; reflexivity.
Qed.


Lemma pass_stop x it st :
  StopEvent (state_of (pass x it st)) = StopEvent st || stop_pressed it.
Proof. both_ways x it; now rewrite ?orb_true_r, ?orb_false_r. Qed.


Lemma pass_stamped x it st r :
  produced start_time it st = Some r ->
  In (EvTime (reading it st)) (trace_of (pass x it st))
  /\ clock st + 200000 <= reading it st <= clock (state_of (pass x it st))
  /\ exists pre post,
       trace_of (pass x it st) = pre ++ EvWriteRow r :: EvFlush :: post
       /\ count is_write pre = 0%nat /\ count is_write post = 0%nat.
Proof.
  both_ways x it; intros H; try discriminate H; injection H as <-.
  all: split; [rewrite <- ?Z.add_assoc; cbn; tauto|].
  all: split; [unfold settle_us; lia|].
  all: eexists (_ :: _ :: _ :: _ :: nil), _; cbn [app];
    split; [rewrite <- ?Z.add_assoc; reflexivity|split; reflexivity].
Qed.

Lemma pass_disk x it st r :
  produced start_time it st = Some r ->
  match flush_raises it with
  | None =>
      pending (state_of (pass x it st)) = []
      /\ on_disk filename (state_of (pass x it st)) = rows st ++ [r]
  | Some _ =>
      pending (state_of (pass x it st)) = pending st ++ [r]
      /\ on_disk filename (state_of (pass x it st)) = on_disk filename st
  end.
Proof.
  both_ways x it; intros H; try discriminate H; injection H as <-.
  all: unfold file_rows, on_disk; cbn [files pending];
    rewrite ?lookup_insert_eq; cbn [default]; rewrite ?app_assoc; split; reflexivity.
Qed.

Lemma pass_disk_grows x it st :
  exists more,
    on_disk filename (state_of (pass x it st)) = on_disk filename st ++ more.
Proof.
  both_ways x it; unfold on_disk, file_rows, on_disk; cbn [files pending];
    rewrite ?lookup_insert_eq; cbn [default];
    first [ exists []; now rewrite app_nil_r | eexists; reflexivity ].
Qed.


(** ** C1: an error inside a pass *)



(** ** C5: the row of a completed pass *)

Lemma stripped_fields (raw : list string) :
  Forall2
    (fun r f =>
       exists lead trail,
         r = lead +:+ f +:+ trail
         /\ Blank.blank lead = true /\ Blank.blank trail = true
         /\ (forall c, Blank.first_char f = Some c -> Text.isspace c = false)
         /\ (forall c, Blank.last_char f = Some c -> Text.isspace c = false))
    raw (map Text.strip raw).
Proof.
  induction raw as [|r raw IH]; cbn [map]; constructor; [|exact IH].
  destruct (strip_margins r) as (lead & trail & H). exists lead, trail. exact H.
Qed.

(** C5. A pass whose try body runs to its end after fetching the answer [s]
    adds exactly one row, the one it hands to the writer. Its first cell is
    the clock reading of that pass minus the session start, written as an
    optional sign, digits, a point and exactly three digits; read back, it is
    within half a millisecond of that elapsed time. The other cells are the
    answer cut at its commas, at every comma and nowhere else, each piece
    with the white space at its two ends taken off and otherwise kept as the
    text received. *)
Theorem row_is_stamp_and_fields x it st s :
  failure it = None -> fetch it = inr s ->
  let p := pass x it st in
  exists now ts fields raw ms,
    In (EvTime now) (trace_of p)
    /\ clock st <= now <= clock (state_of p)
    /\ rows (state_of p) = rows st ++ [ts :: fields]
    /\ In (EvWriteRow (ts :: fields)) (trace_of p)
    /\ Stamp.read_ms ts = Some ms
    /\ now - start_time - 500 <= 1000 * ms <= now - start_time + 500
    /\ (exists sign whole frac,
          ts = sign +:+ whole +:+ "." +:+ frac
          /\ (sign = "" \/ sign = "-")
          /\ whole <> "" /\ Stamp.all_digits whole = true
          /\ String.length frac = 3%nat /\ Stamp.all_digits frac = true)
    /\ fields = Text.split_then_trim s
    /\ More.join raw = s
    /\ Forall (fun r => More.occurrences Text.comma r = 0%nat) raw
    /\ Forall2
         (fun r f =>
            exists lead trail,
              r = lead +:+ f +:+ trail
              /\ Blank.blank lead = true /\ Blank.blank trail = true
              /\ (forall c, Blank.first_char f = Some c -> Text.isspace c = false)
              /\ (forall c, Blank.last_char f = Some c -> Text.isspace c = false))
         raw fields.
Proof.
  intros Hf Hs p. subst p.
  destruct (completed_produced start_time it st Hf) as (d & Hd & Hp).
  rewrite Hs in Hd. injection Hd as <-.
  destruct (pass_stamped x it st _ Hp) as (Htime & Hclock & pre & post & Htr & _).
  exists (reading it st), (Stamp.format3 (reading it st - start_time)),
    (Text.parse_values s), (Text.split Text.comma s),
    (Stamp.value_ms (reading it st - start_time)).
  split; [exact Htime|]. split; [lia|].
  split; [now rewrite pass_rows, Hp|].
  split; [rewrite Htr; apply in_or_app; right; now left|].
  split; [apply read_ms_format3|].
  split; [pose proof (value_ms_close (reading it st - start_time)); lia|].
  split; [apply format3_shape|].
  split; [apply parse_values_split_then_trim|].
  split; [apply split_join_comma|].
  split; [apply split_fields_no_comma|].
  rewrite parse_values_split_then_trim. apply stripped_fields.
Qed.


(** *** The whole run, for any interval *)

Lemma tloop_rows_detail x sched st :
  exists added,
    rows (state_of (tloop x sched st)) = rows st ++ added
    /\ Forall2 Thread.row_of_pass added
         (filter (fun it => wrote it = true) (Thread.made x (StopEvent st) sched)).
Proof.
  unfold Thread.made. destruct (Thread.sleep_outcome x) as [e|us] eqn:Hx.
  - destruct (StopEvent st) eqn:Hs.
    { exists []. rewrite tloop_stop by assumption. cbn. rewrite app_nil_r.
      split; [reflexivity|constructor]. }
    destruct sched as [|it rest].
    { exists []. rewrite tloop_nil by assumption. cbn. rewrite app_nil_r.
      split; [reflexivity|constructor]. }
    rewrite (tloop_refused x e it rest st Hx Hs). unfold state_of at 1. cbn [fst snd].
    fold (state_of (pass x it st)). rewrite pass_rows. cbn [firstn].
    pose proof (wrote_produced start_time it st) as Hw.
    destruct (produced start_time it st) as [r|] eqn:Hp.
    + exists [r]. split; [reflexivity|].
      rewrite filter_cons_True by (apply Hw; eauto).
      constructor; [now apply (produced_row_of_pass start_time it st)|constructor].
    + exists []. split; [reflexivity|].
      rewrite filter_cons_False; [constructor|].
      intros Hwt. apply Hw in Hwt. destruct Hwt as [? Hwt]. discriminate Hwt.
  - rewrite (tloop_taken x us sched st Hx). apply loop_rows_detail.
Qed.

Lemma tloop_frame x sched st1 st2 :
  clock st1 = clock st2 -> StopEvent st1 = StopEvent st2 ->
  result_of (tloop x sched st1) = result_of (tloop x sched st2)
  /\ exists added,
       rows (state_of (tloop x sched st1)) = rows st1 ++ added
       /\ rows (state_of (tloop x sched st2)) = rows st2 ++ added.
Proof.
  intros Hc Hs. split; [now rewrite !tloop_result, Hs|].
  destruct (Thread.sleep_outcome x) as [e|us] eqn:Hx.
  - destruct (StopEvent st2) eqn:Hs2.
    { exists []. rewrite !tloop_stop by congruence. cbn. now rewrite !app_nil_r. }
    destruct sched as [|it rest].
    { exists []. rewrite !tloop_nil by congruence. cbn. now rewrite !app_nil_r. }
    rewrite !(tloop_refused x e it rest) by congruence.
    unfold state_of at 1 3. cbn [fst snd].
    fold (state_of (pass x it st1)). fold (state_of (pass x it st2)).
    rewrite !pass_rows.
    assert (Hp : produced start_time it st1 = produced start_time it st2)
      by (unfold produced, reading; now rewrite Hc).
    rewrite Hp. eexists. split; reflexivity.
  - rewrite !(tloop_taken x us sched _ Hx).
    apply (loop_frame filename us start_time sched st1 st2 Hc Hs).
Qed.

Lemma trecord_run x env mode st :
  open_raises env = None -> header_raises env = None ->
  let y := tloop x (schedule env) (at_loop filename mode st) in
  let pre := EvOpenWrite filename :: EvWriteRow (header_of mode) :: trace_of y in
  trecord x env mode st =
  match result_of y with
  | Running => (pre, state_of y, Running)
  | Raises e =>
      match file_close_raises env with
      | Some e' => (pre ++ [EvFileClose], state_of y, Raises e')
      | None => (pre ++ [EvFileClose], write_out filename (state_of y), Raises e)
      end
  | Done _ =>
      match file_close_raises env, instr_close_raises env with
      | Some e, _ => (pre ++ [EvFileClose], state_of y, Raises e)
      | None, Some e =>
          (pre ++ [EvFileClose; EvInstrClose], write_out filename (state_of y), Raises e)
      | None, None =>
          (pre ++ [EvFileClose; EvInstrClose; EvStatus "Recording stopped."],
           write_out filename (state_of y), Done tt)
      end
  end.
Proof.
  intros Ho Hh y pre.
  unfold Thread.RecordMeasurements, with_open, writerow.
  rewrite Ho, Hh.
  cbv [bind emit outcome]. cbn [clock files pending StopEvent app].
  change (State (clock st) (<[filename:=[]]> (files st)) [header_of mode] (StopEvent st))
    with (at_loop filename mode st).
  fold y. destruct y as [[t1 st1] r1]. subst pre.
  unfold trace_of, state_of, result_of. cbn [fst snd].
  destruct r1 as [[]|e|]; [| |reflexivity].
  - destruct (file_close_raises env); [reflexivity|].
    destruct (instr_close_raises env); cbn; rewrite <- ?app_assoc; reflexivity.
  - destruct (file_close_raises env); reflexivity.
Qed.

Lemma trecord_rows x env mode st :
  open_raises env = None -> header_raises env = None ->
  rows (state_of (trecord x env mode st)) =
  rows (state_of (tloop x (schedule env) (at_loop filename mode st))).
Proof.
  intros Ho Hh. rewrite (trecord_run x env mode st Ho Hh).
  destruct (result_of (tloop x (schedule env) (at_loop filename mode st))) as [[]|e|];
    [destruct (file_close_raises env); [|destruct (instr_close_raises env)]
    |destruct (file_close_raises env)|];
    unfold state_of at 1; cbn [fst snd]; rewrite ?file_rows_write_out; reflexivity.
Qed.

Lemma trecord_result x env mode st :
  open_raises env = None -> header_raises env = None ->
  result_of (trecord x env mode st) =
  match Thread.ending x (StopEvent st) (schedule env) with
  | Running => Running
  | Raises e =>
      match file_close_raises env with Some e' => Raises e' | None => Raises e end
  | Done _ =>
      match file_close_raises env, instr_close_raises env with
      | Some e, _ => Raises e
      | None, Some e => Raises e
      | None, None => Done tt
      end
  end.
Proof.
  intros Ho Hh. rewrite (trecord_run x env mode st Ho Hh).
  rewrite tloop_result. cbn [at_loop StopEvent].
  destruct (Thread.ending x (StopEvent st) (schedule env)) as [[]|e|];
    [destruct (file_close_raises env); [|destruct (instr_close_raises env)]
    |destruct (file_close_raises env)|]; reflexivity.
Qed.


Lemma tloop_head x sched st :
  exists tl, trace_of (tloop x sched st) = EvStopPoll (StopEvent st) :: tl.
Proof.
  destruct (StopEvent st) eqn:Hs.
  - rewrite tloop_stop by assumption. now exists [].
  - destruct sched as [|it rest].
    + rewrite tloop_nil by assumption. now exists [].
    + cbn [Thread.loop]. rewrite Hs. unfold bind at 1. cbn [emit].
      destruct ((pass x it;; tloop x rest) st) as [[t s'] r]. eexists. reflexivity.
Qed.

Lemma fetched_written_produced it st d :
  fetched it = Some d -> writerow_raises it = None ->
  produced start_time it st =
  Some (Stamp.format3 (reading it st - start_time) :: Text.parse_values d).
Proof. intros Hf Hw. unfold produced. now rewrite Hf, Hw. Qed.

(** ** C9: a mode the table does not list *)

(** C9. For a mode outside the seven listed ones the header lookup does not
    fail: it falls back to Timestamp, Measurement Value, N/A, so two values
    are expected per reading. That header is the first row written, and after
    it comes one row for every pass whose row write returned, in the order of
    the passes, each a timestamp followed by the parsed values of the answer
    of that pass. The run ends as it would for a listed mode, with the same
    rows after the header; when it ends in an error, that error comes from
    closing the file or the instrument or from the interval sleep, never from
    the mode; and with an interval the sleep takes, a stop pressed and both
    closes returning, it ends without error. *)
Theorem unlisted_mode_default_header x env mode st :
  ~ In mode mode_options ->
  open_raises env = None -> header_raises env = None ->
  let r := trecord x env mode st in
  header_of mode = default_header
  /\ expected_values mode = 2%nat
  /\ (exists tl, trace_of r = EvOpenWrite filename :: EvWriteRow default_header
                              :: EvStopPoll (StopEvent st) :: tl)
  /\ (exists data,
        rows (state_of r) = default_header :: data
        /\ Forall2 Thread.row_of_pass data
             (filter (fun it => wrote it = true)
                (Thread.made x (StopEvent st) (schedule env)))
        /\ forall listed, In listed mode_options ->
             rows (state_of (trecord x env listed st)) = header_of listed :: data
             /\ result_of (trecord x env listed st) = result_of r)
  /\ (forall e, result_of r = Raises e ->
        file_close_raises env = Some e \/ instr_close_raises env = Some e
        \/ Thread.sleep_outcome x = inl e)
  /\ (forall us, Thread.sleep_outcome x = inr us ->
        file_close_raises env = None -> instr_close_raises env = None ->
        StopEvent st || existsb stop_pressed (schedule env) = true ->
        result_of r = Done tt).
Proof.
  intros Hn Ho Hh r. subst r.
  assert (Hd : header_of mode = default_header).
  { unfold header_of. now rewrite (unlisted_mode_lookup mode Hn). }
  split; [exact Hd|]. split; [unfold expected_values; now rewrite Hd|].
  split.
  { rewrite (trecord_run x env mode st Ho Hh), Hd.
    destruct (tloop_head x (schedule env) (at_loop filename mode st)) as [tl Htl].
    cbn [at_loop StopEvent] in Htl.
    destruct (result_of _) as [[]|e|];
      [destruct (file_close_raises env); [|destruct (instr_close_raises env)]
      |destruct (file_close_raises env)|];
      unfold trace_of at 1; cbn [fst]; rewrite Htl; cbn [app]; eauto. }
  split.
  { destruct (tloop_rows_detail x (schedule env) (at_loop filename mode st))
      as (data & Hrows & Hdet).
    rewrite at_loop_rows, Hd in Hrows. cbn [at_loop StopEvent app] in *.
    exists data. rewrite trecord_rows by assumption.
    split; [exact Hrows|]. split; [exact Hdet|].
    intros listed _.
    destruct (tloop_frame x (schedule env) (at_loop filename listed st)
                (at_loop filename mode st) eq_refl eq_refl) as [_ (added & H1 & H2)].
    rewrite Hrows, at_loop_rows, Hd in H2. cbn in H2. injection H2 as <-.
    split.
    - now rewrite trecord_rows, H1, at_loop_rows by assumption.
    - now rewrite !trecord_result by assumption. }
  split.
  2:{ intros us Hx Hfc Hic Hstop. rewrite trecord_result by assumption.
      unfold Thread.ending, terminates. now rewrite Hx, Hstop, Hfc, Hic. }
  intros e. rewrite trecord_result by assumption. unfold Thread.ending.
  destruct (Thread.sleep_outcome x) as [e0|us].
  - destruct (StopEvent st).
    + destruct (file_close_raises env); [intros [= ->]; now left|].
      destruct (instr_close_raises env); [intros [= ->]; right; now left|discriminate].
    + destruct (schedule env); [discriminate|].
      destruct (file_close_raises env); intros [= ->]; [now left|right; now right].
  - destruct (terminates (StopEvent st) (schedule env)); [|discriminate].
    destruct (file_close_raises env); [intros [= ->]; now left|].
    destruct (instr_close_raises env); [intros [= ->]; right; now left|discriminate].
Qed.

(** ** C10: the file is created anew, then only grows *)

(** C10. The file is opened for writing: whatever a file of that name held
    before, the run is the same as if it had not been there, and what the file
    holds is the header followed by the rows of this run alone. In each pass
    that fetched an answer and whose row write returned, the row, timestamp
    and parsed values, is added at the end of the rows, and the call that
    follows the write is the flush; if the flush returns, nothing is left
    buffered and the row is on disk after all earlier rows, and if it raises
    the row stays buffered. A pass that writes no row leaves the rows as they
    were, and no pass takes anything away from what is on disk. *)
Theorem file_overwritten_rows_flushed x env mode c disk stop old :
  open_raises env = None -> header_raises env = None ->
  (forall interval,
     RecordMeasurements filename interval start_time env mode
       (initial c (<[filename := old]> disk) stop)
     = RecordMeasurements filename interval start_time env mode (initial c disk stop))
  /\ trecord x env mode (initial c (<[filename := old]> disk) stop)
     = trecord x env mode (initial c disk stop)
  /\ (exists data,
        rows (state_of (trecord x env mode (initial c (<[filename := old]> disk) stop)))
        = header_of mode :: data
        /\ Forall2 Thread.row_of_pass data
             (filter (fun it => wrote it = true) (Thread.made x stop (schedule env))))
  /\ (forall it st d,
        fetched it = Some d -> writerow_raises it = None ->
        exists ts ms,
          Stamp.read_ms ts = Some ms
          /\ reading it st - start_time - 500 <= 1000 * ms
             <= reading it st - start_time + 500
          /\ let r := ts :: Text.parse_values d in
             rows (state_of (pass x it st)) = rows st ++ [r]
             /\ (exists pre post,
                   trace_of (pass x it st) = pre ++ EvWriteRow r :: EvFlush :: post
                   /\ count is_write pre = 0%nat /\ count is_write post = 0%nat)
             /\ (flush_raises it = None ->
                 pending (state_of (pass x it st)) = []
                 /\ on_disk filename (state_of (pass x it st)) = rows st ++ [r])
             /\ (forall e, flush_raises it = Some e ->
                 pending (state_of (pass x it st)) = pending st ++ [r]
                 /\ on_disk filename (state_of (pass x it st)) = on_disk filename st))
  /\ (forall it st, wrote it = false -> rows (state_of (pass x it st)) = rows st)
  /\ (forall it st, exists more,
        on_disk filename (state_of (pass x it st)) = on_disk filename st ++ more).
Proof.
  intros Ho Hh.
  assert (Hat : at_loop filename mode (initial c (<[filename := old]> disk) stop)
                = at_loop filename mode (initial c disk stop)).
  { unfold at_loop, initial. cbn [clock files pending StopEvent].
    now rewrite insert_insert_eq. }
  split.
  { intros interval. rewrite !(RecordMeasurements_run filename interval start_time env mode _ Ho Hh).
    now rewrite Hat. }
  split.
  { rewrite !(trecord_run x env mode _ Ho Hh). now rewrite Hat. }
  split.
  { destruct (tloop_rows_detail x (schedule env)
                (at_loop filename mode (initial c (<[filename := old]> disk) stop)))
      as (data & Hrows & Hdet).
    rewrite at_loop_rows in Hrows. cbn [at_loop initial StopEvent app] in *.
    exists data. rewrite trecord_rows by assumption. split; assumption. }
  split.
  { intros it st d Hf Hw.
    pose proof (fetched_written_produced it st d Hf Hw) as Hp.
    exists (Stamp.format3 (reading it st - start_time)),
      (Stamp.value_ms (reading it st - start_time)).
    split; [apply read_ms_format3|]. split; [apply value_ms_close|]. cbv zeta.
    split; [now rewrite pass_rows, Hp|].
    destruct (pass_stamped x it st _ Hp) as (_ & _ & Htr).
    split; [exact Htr|].
    pose proof (pass_disk x it st _ Hp) as Hdisk.
    split.
    - intros Hfl. now rewrite Hfl in Hdisk.
    - intros e Hfl. now rewrite Hfl in Hdisk. }
  split.
  { intros it st Hw. rewrite pass_rows.
    pose proof (wrote_produced start_time it st) as Hwp.
    destruct (produced start_time it st) as [r|]; [|cbn; apply app_nil_r].
    rewrite (proj2 Hwp) in Hw by eauto. discriminate Hw. }
  intros it st. apply pass_disk_grows.
Qed.

End ThreadFacts.



(** ** The checks of [StartRecording] *)

Section StartFacts.
Import Start.

Variable float_str : pyfloat -> string.

Lemma frequency_ok_iff q :
  frequency_ok (Some (Finite q)) = true <-> (20 # 1 <= q /\ q <= 500000 # 1)%Q.
Proof.
  unfold frequency_ok, float_le. rewrite andb_true_iff, !Qle_bool_iff. tauto.
Qed.

Lemma level_ok_iff q :
  level_ok (Some (Finite q)) = true <-> (5 # 1000 <= q /\ q <= 2 # 1)%Q.
Proof.
  unfold level_ok, float_le. rewrite andb_true_iff, !Qle_bool_iff. tauto.
Qed.

Lemma interval_ok_iff q :
  interval_ok (Some (Finite q)) = true <-> (0 < q)%Q.
Proof.
  unfold interval_ok, float_le. rewrite negb_true_iff.
  split.
  - intros H. apply Qnot_le_lt. intros Hle. apply Qle_bool_iff in Hle.
    change (0 # 1)%Q with 0%Q in H. congruence.
  - intros H. destruct (Qle_bool q (0 # 1)) eqn:Hb; [|reflexivity].
    apply Qle_bool_iff in Hb. exfalso. eapply Qlt_not_le; eassumption.
Qed.

(** Neither range check lets through what is not a finite number. *)
Lemma range_checks_reject_non_finite :
  frequency_ok None = false /\ frequency_ok (Some NaN) = false
  /\ frequency_ok (Some PosInf) = false /\ frequency_ok (Some NegInf) = false
  /\ level_ok None = false /\ level_ok (Some NaN) = false
  /\ level_ok (Some PosInf) = false /\ level_ok (Some NegInf) = false.
Proof. repeat split. Qed.

(** The end points of the two ranges, and the values just outside. *)
Lemma range_boundaries :
  frequency_ok (Some (Finite (20 # 1))) = true
  /\ frequency_ok (Some (Finite (500000 # 1))) = true
  /\ frequency_ok (Some (Finite (19999 # 1000))) = false
  /\ frequency_ok (Some (Finite (5000001 # 10))) = false
  /\ level_ok (Some (Finite (5 # 1000))) = true
  /\ level_ok (Some (Finite (2 # 1))) = true
  /\ level_ok (Some (Finite (4999 # 1000000))) = false
  /\ level_ok (Some (Finite (2001 # 1000))) = false.
Proof. repeat split. Qed.

(** A form that fails a check gets one error box and nothing else: the
    instrument is not touched. *)
Lemma rejected_before_instrument f b :
  accepted f = false ->
  exists title message,
    StartRecording float_str f b = [ShowError title message]
    /\ Forall (fun a => touches_instrument a = false) (StartRecording float_str f b).
Proof.
  unfold accepted, StartRecording. intros H.
  destruct (sampling_freq_entry f) as [x|];
    [|eexists _, _; split; [reflexivity|repeat constructor]].
  destruct (frequency_ok (Some x)); cbn [negb];
    [|eexists _, _; split; [reflexivity|repeat constructor]].
  destruct (sample_level_entry f) as [y|];
    [|eexists _, _; split; [reflexivity|repeat constructor]].
  destruct (level_ok (Some y)); cbn [negb];
    [|eexists _, _; split; [reflexivity|repeat constructor]].
  destruct (record_interval_entry f) as [z|];
    [|eexists _, _; split; [reflexivity|repeat constructor]].
  destruct (interval_ok (Some z)); cbn [negb];
    [|eexists _, _; split; [reflexivity|repeat constructor]].
  destruct (Text.is_empty (strip_text (filename_entry f)));
    [eexists _, _; split; [reflexivity|repeat constructor]|].
  cbn in H. discriminate H.
Qed.

End StartFacts.

(** C6, at the input on which the script departs from it. With [nan] typed as
    the recording interval (and the script's own defaults elsewhere) the
    interval check passes, since [nan <= 0] is false like every comparison with
    [nan]; the handler connects, configures the instrument and starts the
    thread with that interval. The same check passes for [inf]. The two range
    checks, written as chained comparisons, reject both. *)
Theorem nan_interval_accepted :
  Start.interval_ok (Some Start.NaN) = true
  /\ Start.interval_ok (Some Start.PosInf) = true
  /\ Start.accepted Start.nan_interval_form = true
  /\ Start.StartRecording Start.sample_float_str Start.nan_interval_form Start.willing =
     [ Start.OpenResource "TCPIP0::192.168.0.10::inst0::INSTR";
       Start.InstrWrite "FUNC R-X"; Start.Sleep 100000;
       Start.InstrWrite "FREQ 1000.0HZ"; Start.Sleep 100000;
       Start.InstrWrite "VOLT 1.0 V"; Start.Sleep 100000;
       Start.InstrWrite "APER MED"; Start.Sleep 100000;
       Start.ClearStop;
       Start.StartThread "measurements.csv" Start.NaN "R-X";
       Start.Status "Recording started..." ]
  /\ Start.frequency_ok (Some Start.NaN) = false
  /\ Start.level_ok (Some Start.NaN) = false.
Proof. repeat split; vm_compute; reflexivity. Qed.

(** ** Sample runs *)

Section Samples.
Import Recorder.

(** C4 on the three-pass run in capacitance mode. *)
Lemma header_once_before_rows_witness :
  exists data,
    file_rows "m.csv"
      (state_of (RecordMeasurements "m.csv" 10000 0 (quiet glitch_run) "C"
                   (initial 0 ∅ false)))
    = header_of "C" :: data
    /\ Forall (fun r => r <> header_of "C") data.
Proof.
  destruct (header_once_before_rows "m.csv" 10000 0 (quiet glitch_run) "C"
              (initial 0 ∅ false) eq_refl eq_refl) as (_ & H & _).
  exact H.
Defined.

(** C7 as first stated fails on a reading of two values in capacitance mode:
    the row is written, and no warning is among the calls of the pass. *)
Lemma mismatch_without_advisory :
  let x := iteration_body "m.csv" 10000 0 two_values fresh_C in
  length (Text.parse_values "1.0,2.0") <> expected_values "C"
  /\ file_rows "m.csv" (state_of x) =
     [["Timestamp"; "Capacitance (F)"]; ["0.200"; "1.0"; "2.0"]]
  /\ ~ (exists ev, In ev (trace_of x) /\ is_advisory ev = true).
Proof.
  cbv zeta. split; [vm_compute; discriminate|]. split; [vm_compute; reflexivity|].
  intros (ev & Hin & Ha). vm_compute in Hin.
  repeat (destruct Hin as [<-|Hin]; [discriminate Ha|]). exact Hin.
Qed.

Lemma ragged_row_written_silently_witness :
  exists ts,
    file_rows "m.csv" (state_of (iteration_body "m.csv" 10000 0 two_values fresh_C))
    = file_rows "m.csv" fresh_C ++ [ts :: Text.parse_values "1.0,2.0"]
    /\ length (ts :: Text.parse_values "1.0,2.0") <> length (header_of "C").
Proof.
  assert (Hne : length (Text.parse_values "1.0,2.0") <> expected_values "C")
    by (vm_compute; lia).
  destruct (ragged_row_written_silently "m.csv" 10000 0 two_values fresh_C "C"
              "1.0,2.0" eq_refl eq_refl Hne) as (_ & H & _).
  exact H.
Defined.

(** C8 as first stated fails when the instrument's close raises: the error is
    the result of the thread function, and the status line is never set. *)
Lemma close_error_escapes :
  let x := RecordMeasurements "m.csv" 10000 0 lost_link "C" (initial 0 ∅ false) in
  result_of x = Raises "VI_ERROR_CONN_LOST"
  /\ ~ In (EvStatus "Recording stopped.") (trace_of x)
  /\ ~ (forall e, result_of x <> Raises e).
Proof.
  cbv zeta. split; [vm_compute; reflexivity|]. split.
  - vm_compute. intros H. repeat (destruct H as [H|H]; [discriminate H|]). exact H.
  - intros H. apply (H "VI_ERROR_CONN_LOST"). vm_compute. reflexivity.
Qed.

Lemma transport_closed_on_stop_witness :
  count is_instr_close
    (trace_of (RecordMeasurements "m.csv" 10000 0 (quiet glitch_run) "C"
                 (initial 0 ∅ false))) = 1%nat
  /\ result_of (RecordMeasurements "m.csv" 10000 0 (quiet glitch_run) "C"
                  (initial 0 ∅ false)) = Done tt.
Proof.
  destruct (transport_closed_on_stop "m.csv" 10000 0 (quiet glitch_run) "C"
              (initial 0 ∅ false) eq_refl eq_refl eq_refl eq_refl)
    as (H1 & _ & _ & H2 & _).
  split; [exact H1|exact H2].
Defined.


(** C5 on an answer with blanks around its pieces and an empty piece. *)
Lemma row_is_stamp_and_fields_witness :
  exists ts ms,
    file_rows "m.csv" (state_of (Thread.pass "m.csv" 0 Thread.ten_ms Thread.padded fresh_C))
    = file_rows "m.csv" fresh_C ++ [[ts; "1.5e3"; "2"; ""; "x"]]
    /\ Stamp.read_ms ts = Some ms.
Proof.
  destruct (row_is_stamp_and_fields "m.csv" 0 Thread.ten_ms Thread.padded fresh_C
              " 1.5e3 , 2 ,,x  " eq_refl eq_refl)
    as (now & ts & fields & raw & ms & _ & _ & Hrows & _ & Hms & _ & _ & Hf & _).
  exists ts, ms. split; [|exact Hms].
  rewrite Hrows, Hf. reflexivity.
Defined.

(** C9 on the three-pass run in a mode the table does not list. *)
Lemma unlisted_mode_default_header_witness :
  header_of "ESR" = default_header
  /\ exists data,
       file_rows "m.csv"
         (state_of (Thread.RecordMeasurements "m.csv" 0 Thread.ten_ms
                      (quiet glitch_run) "ESR" (initial 0 ∅ false)))
       = default_header :: data
       /\ length data = 2%nat.
Proof.
  assert (Hn : ~ In "ESR" mode_options).
  { simpl. intros H. repeat (destruct H as [H|H]; [discriminate H|]). exact H. }
  destruct (unlisted_mode_default_header "m.csv" 0 Thread.ten_ms (quiet glitch_run)
              "ESR" (initial 0 ∅ false) Hn eq_refl eq_refl)
    as (H1 & _ & _ & (data & Hrows & Hdet & _) & _).
  split; [exact H1|]. exists data. split; [exact Hrows|].
  apply Forall2_length in Hdet. exact Hdet.
Defined.

(** C10 on the three-pass run over a file that held a stale row. *)
Lemma file_overwritten_rows_flushed_witness :
  Thread.RecordMeasurements "m.csv" 0 Thread.ten_ms (quiet glitch_run) "C"
    (initial 0 (<["m.csv" := [["stale"]]]> ∅) false)
  = Thread.RecordMeasurements "m.csv" 0 Thread.ten_ms (quiet glitch_run) "C"
      (initial 0 ∅ false).
Proof.
  destruct (file_overwritten_rows_flushed "m.csv" 0 Thread.ten_ms (quiet glitch_run)
              "C" 0 ∅ false [["stale"]] eq_refl eq_refl) as (_ & H & _).
  exact H.
Defined.

End Samples.

(** * Further properties of the scripts *)


(** ** The rendered timestamp as a number *)

Section StampMore.
Import Stamp.
Local Open Scope Z_scope.

(** X12. The text written for an elapsed time reads back as a number of
    milliseconds within half a millisecond of it, and as exactly that number
    when the elapsed time is a whole number of milliseconds. *)
Theorem timestamp_reads_back t :
  (exists ms, read_ms (format3 t) = Some ms /\ t - 500 <= 1000 * ms <= t + 500)
  /\ read_ms (format3 (1000 * t)) = Some t.
Proof.
  split.
  - exists (value_ms t). split; [apply read_ms_format3|apply value_ms_close].
  - rewrite read_ms_format3. f_equal.
    pose proof (value_ms_close (1000 * t)). lia.
Qed.

(** X13. A later reading never renders as a smaller number. *)
Theorem rendering_keeps_order a b :
  a <= b ->
  exists x y,
    read_ms (format3 a) = Some x /\ read_ms (format3 b) = Some y /\ x <= y.
Proof.
  intros Hab. exists (value_ms a), (value_ms b).
  split; [apply read_ms_format3|]. split; [apply read_ms_format3|].
  destruct (Z.eq_dec a b) as [->|Hne]; [lia|].
  pose proof (value_ms_close a). pose proof (value_ms_close b). lia.
Qed.

End StampMore.

Lemma rendering_keeps_order_witness :
  exists x y,
    Stamp.read_ms (Stamp.format3 1499) = Some x
    /\ Stamp.read_ms (Stamp.format3 1500) = Some y /\ (x <= y)%Z.
Proof. apply (rendering_keeps_order 1499 1500). lia. Defined.

(** ** The header table and the mode selector *)

(** X14. The selector offers exactly the modes the header table knows, so a mode
    picked there never gets the fall-back header. *)
Theorem selector_modes_have_headers mode :
  (In mode mode_options <-> is_Some (HeaderMapping !! mode))
  /\ (In mode mode_options <-> header_of mode <> default_header).
Proof.
  assert (H1 : In mode mode_options <-> is_Some (HeaderMapping !! mode)).
  { split.
    - intros H. rewrite (listed_mode_lookup mode H). eauto.
    - intros [h Hh]. apply HeaderMapping_entry in Hh. cbn in Hh |- *.
      repeat (destruct Hh as [[= <- _]|Hh]; [tauto|]). destruct Hh. }
  split; [exact H1|]. split.
  - intros H. cbn in H.
    repeat (destruct H as [<-|H]; [vm_compute; discriminate|]). destruct H.
  - intros Hne. apply H1. unfold header_of in Hne.
    destruct (HeaderMapping !! mode); [eauto|]. now cbn in Hne.
Qed.

(** ** The start handler beyond its numeric checks *)

Section StartMore.
Import Start More Setup Blank.

Variable float_str : pyfloat -> string.

Local Abbreviation start := (StartRecording float_str).

(** *** The destination name *)

Lemma endswith_refl suffix : endswith suffix suffix = true.
Proof. destruct suffix; cbn [endswith]; now rewrite String.eqb_refl. Qed.

Lemma endswith_app suffix s : endswith suffix (s +:+ suffix) = true.
Proof.
  induction s as [|c s IH]; [apply endswith_refl|].
  change (endswith suffix (String c (s +:+ suffix)) = true).
  cbn [endswith]. destruct (String.eqb _ suffix); [reflexivity|exact IH].
Qed.

Lemma map_chars_app f a b : map_chars f (a +:+ b) = map_chars f a +:+ map_chars f b.
Proof.
  induction a as [|c a IH]; [reflexivity|].
  change (map_chars f (String c (a +:+ b))
          = String (f c) (map_chars f a +:+ map_chars f b)).
  cbn [map_chars]. now rewrite IH.
Qed.

Lemma with_csv_ends name :
  endswith ".csv" (map_chars lower_char (with_csv name)) = true.
Proof.
  unfold with_csv.
  destruct (endswith ".csv" (map_chars lower_char name)) eqn:He; [exact He|].
  rewrite map_chars_app. apply endswith_app.
Qed.

Lemma endswith_nonempty suffix s :
  suffix <> EmptyString -> endswith suffix s = true -> s <> EmptyString.
Proof. intros Hs He ->. cbn in He. destruct suffix; [congruence|discriminate]. Qed.

Lemma filename_gets_csv_suffix_aux name :
  endswith ".csv" (map_chars lower_char (with_csv name)) = true
  /\ with_csv name <> EmptyString.
Proof.
  pose proof (with_csv_ends name) as He. split; [exact He|].
  intros Hn. rewrite Hn in He. discriminate He.
Qed.

(** X15. The name of the file, lines 56-58: it always ends in [.csv], whatever the
    case of the letters; a name that already does is kept as typed, and the
    suffix is never added twice. *)
Theorem filename_gets_csv_suffix name :
  endswith ".csv" (map_chars lower_char (with_csv name)) = true
  /\ with_csv (with_csv name) = with_csv name
  /\ (with_csv name = name \/ with_csv name = name +:+ ".csv")
  /\ (with_csv name = name <-> endswith ".csv" (map_chars lower_char name) = true)
  /\ with_csv name <> EmptyString.
Proof.
  pose proof (with_csv_ends name) as He.
  split; [exact He|]. split.
  { unfold with_csv at 1. now rewrite He. }
  split.
  { unfold with_csv.
    destruct (endswith ".csv" (map_chars lower_char name)); [now left|now right]. }
  split.
  { split.
    - intros Heq. now rewrite Heq in He.
    - intros H. unfold with_csv. now rewrite H. }
  intros Hn. rewrite Hn in He. discriminate He.
Qed.

(** *** White space around the name *)

Lemma lstrip_chars_split l :
  exists lead, l = lead ++ lstrip_chars l /\ forallb is_space lead = true.
Proof.
  induction l as [|ch l (lead & IH & Hb)]; [now exists []|].
  cbn [lstrip_chars]. destruct (is_space ch) eqn:Hc.
  - exists (ch :: lead). split; [cbn [app]; f_equal; exact IH|].
    cbn [forallb]. now rewrite Hc, Hb.
  - now exists [].
Qed.

Lemma lstrip_chars_head l ch :
  head (lstrip_chars l) = Some ch -> is_space ch = false.
Proof.
  induction l as [|d l IH]; [discriminate|].
  cbn [lstrip_chars]. destruct (is_space d) eqn:Hd; [exact IH|].
  cbn. intros [= <-]. exact Hd.
Qed.

Lemma rstrip_chars_nil l : rstrip_chars l = [] -> forallb is_space l = true.
Proof.
  induction l as [|ch l IH]; [reflexivity|].
  cbn [rstrip_chars forallb]. destruct (rstrip_chars l) as [|x r]; [|discriminate].
  destruct (is_space ch); [|discriminate]. intros _. now apply IH.
Qed.

Lemma rstrip_chars_split l :
  exists trail, l = rstrip_chars l ++ trail /\ forallb is_space trail = true.
Proof.
  induction l as [|ch l (trail & IH & Hb)]; [now exists []|].
  cbn [rstrip_chars]. destruct (rstrip_chars l) as [|x r] eqn:Hr.
  - destruct (is_space ch) eqn:Hc.
    + exists (ch :: l). split; [reflexivity|]. cbn [forallb]. rewrite Hc.
      now apply rstrip_chars_nil.
    + exists trail. split; [cbn [app] in *; f_equal; exact IH|exact Hb].
  - exists trail. split; [cbn [app] in *; f_equal; exact IH|exact Hb].
Qed.

Lemma rstrip_chars_last l ch :
  list.last (rstrip_chars l) = Some ch -> is_space ch = false.
Proof.
  induction l as [|d l IH]; [discriminate|].
  cbn [rstrip_chars]. destruct (rstrip_chars l) as [|x r] eqn:Hr.
  - destruct (is_space d) eqn:Hd; [discriminate|]. cbn. intros [= <-]. exact Hd.
  - exact IH.
Qed.

Lemma rstrip_chars_head l ch :
  head l = Some ch -> is_space ch = false -> head (rstrip_chars l) = Some ch.
Proof.
  destruct l as [|d l]; [discriminate|]. cbn [head rstrip_chars]. intros [= ->] Hc.
  destruct (rstrip_chars l); [now rewrite Hc|reflexivity].
Qed.

Lemma strip_chars_margins l :
  exists lead trail,
    l = lead ++ rstrip_chars (lstrip_chars l) ++ trail
    /\ forallb is_space lead = true /\ forallb is_space trail = true
    /\ (forall ch, head (rstrip_chars (lstrip_chars l)) = Some ch -> is_space ch = false)
    /\ (forall ch, list.last (rstrip_chars (lstrip_chars l)) = Some ch ->
                   is_space ch = false).
Proof.
  destruct (lstrip_chars_split l) as (lead & Hl & Hbl).
  destruct (rstrip_chars_split (lstrip_chars l)) as (trail & Hr & Hbt).
  exists lead, trail.
  split; [now rewrite <- Hr|]. split; [exact Hbl|]. split; [exact Hbt|].
  split; [|apply rstrip_chars_last].
  intros ch Hc. destruct (lstrip_chars l) as [|d r] eqn:Hls; [discriminate Hc|].
  assert (Hd : is_space d = false) by (apply (lstrip_chars_head l); now rewrite Hls).
  rewrite (rstrip_chars_head (d :: r) d eq_refl Hd) in Hc. now injection Hc as <-.
Qed.

Lemma chars_upto_nonempty n s : Forall (fun ch => ch <> EmptyString) (chars_upto n s).
Proof.
  revert s. induction n as [|n IH]; intros s; [constructor|].
  destruct s as [|c r]; [constructor|]. cbn [chars_upto].
  constructor; [discriminate|apply IH].
Qed.

Lemma concat_cons x xs :
  String.concat EmptyString (x :: xs) = x +:+ String.concat EmptyString xs.
Proof.
  destruct xs as [|y ys]; cbn [String.concat].
  - induction x as [|c x IH]; [reflexivity|].
    change (String c x = String c (x +:+ EmptyString)). now f_equal.
  - reflexivity.
Qed.

Lemma concat_nonempty l :
  Forall (fun ch => ch <> EmptyString) l ->
  String.concat EmptyString l = EmptyString -> l = [].
Proof.
  destruct l as [|x xs]; [reflexivity|]. intros Hall. inversion Hall as [|? ? Hx _]; subst.
  rewrite concat_cons. destruct x as [|c x]; [now contradiction Hx|discriminate].
Qed.

Lemma take_drop n s : take n s +:+ drop n s = s.
Proof.
  revert s. induction n as [|n IH]; intros s; [reflexivity|].
  destruct s as [|c s]; [reflexivity|]. cbn [take drop].
  change (String c (take n s +:+ drop n s) = String c s). now rewrite IH.
Qed.

Lemma drop_length n s : (String.length (drop n s) <= String.length s)%nat.
Proof.
  revert s. induction n as [|n IH]; intros s; [cbn; lia|].
  destruct s as [|c s]; [cbn; lia|]. cbn [drop String.length]. specialize (IH s). lia.
Qed.

Lemma chars_upto_concat n s :
  (String.length s <= n)%nat -> String.concat EmptyString (chars_upto n s) = s.
Proof.
  revert s. induction n as [|n IH]; intros s Hn.
  - destruct s; [reflexivity|cbn in Hn; lia].
  - destruct s as [|c r]; [reflexivity|]. cbn [chars_upto]. rewrite concat_cons.
    rewrite IH.
    + change (String c (take (width c - 1) r +:+ drop (width c - 1) r) = String c r).
      now rewrite take_drop.
    + pose proof (drop_length (width c - 1) r). cbn [String.length] in Hn. lia.
Qed.

Lemma chars_concat s : String.concat EmptyString (chars s) = s.
Proof. apply chars_upto_concat. lia. Qed.

Lemma strip_text_blank s : strip_text s = EmptyString <-> blank_text s = true.
Proof.
  unfold strip_text, blank_text.
  destruct (strip_chars_margins (chars s)) as (lead & trail & Hs & Hl & Ht & _).
  split.
  - intros He. apply concat_nonempty in He.
    + rewrite He in Hs. cbn [app] in Hs. rewrite Hs, forallb_app, Hl, Ht. reflexivity.
    + pose proof (chars_upto_nonempty (String.length s) s) as Hall.
      fold (chars s) in Hall. rewrite Hs in Hall.
      apply Forall_app in Hall as [_ Hall]. now apply Forall_app in Hall as [Hall _].
  - intros Hb.
    assert (Hn : forall l, forallb is_space l = true -> lstrip_chars l = []).
    { induction l as [|ch l IH]; [reflexivity|]. cbn [forallb lstrip_chars].
      intros H. apply andb_prop in H as [-> H]. now apply IH. }
    now rewrite (Hn _ Hb).
Qed.

(** X16. A form whose numbers pass but whose file name is empty or all white
    space (the no-break space and the other spaces beyond ASCII included) gets the
    file-name error box, and the instrument is not touched. Any other name
    passes the check, and the handler goes on to open the connection. *)
Theorem blank_filename_rejected f b :
  frequency_ok (sampling_freq_entry f) = true ->
  level_ok (sample_level_entry f) = true ->
  interval_ok (record_interval_entry f) = true ->
  (blank_text (filename_entry f) = true ->
   start f b = [ShowError "Input Error" "Please provide a CSV filename."]
   /\ accepted f = false)
  /\ (blank_text (filename_entry f) = false ->
      accepted f = true
      /\ exists tl, start f b = OpenResource "TCPIP0::192.168.0.10::inst0::INSTR" :: tl).
Proof.
  intros Hf Hl Hi. unfold StartRecording, accepted.
  destruct (sampling_freq_entry f) as [x|]; [|discriminate Hf]. rewrite Hf.
  destruct (sample_level_entry f) as [y|]; [|discriminate Hl]. rewrite Hl.
  destruct (record_interval_entry f) as [z|]; [|discriminate Hi]. rewrite Hi.
  cbn [negb andb]. split.
  - intros Hb. apply strip_text_blank in Hb. rewrite Hb. split; reflexivity.
  - intros Hb. destruct (Text.is_empty (strip_text (filename_entry f))) eqn:He.
    + assert (Hs : strip_text (filename_entry f) = EmptyString)
        by (destruct (strip_text (filename_entry f)); [reflexivity|discriminate He]).
      apply strip_text_blank in Hs. rewrite Hs in Hb. discriminate Hb.
    + split; [reflexivity|]. eexists. reflexivity.
Qed.

(** *** Sending the configuration *)

Lemma configure_taken b cmds k :
  forallb (takes b) cmds = true ->
  configure b cmds k = sent_and_settled cmds ++ k.
Proof.
  induction cmds as [|cmd cmds IH]; [reflexivity|].
  cbn [forallb]. intros H. apply andb_prop in H as [Hc Hr].
  unfold takes in Hc. cbn [configure sent_and_settled flat_map app].
  destruct (write_raises b cmd); [discriminate|].
  f_equal. f_equal. now apply IH.
Qed.

Lemma configure_refused b cmds k :
  forallb (takes b) cmds = false ->
  exists taken cmd rest e,
    cmds = taken ++ cmd :: rest
    /\ forallb (takes b) taken = true
    /\ write_raises b cmd = Some e
    /\ configure b cmds k =
       sent_and_settled taken
       ++ [InstrWrite cmd;
           ShowError "Configuration Error" ("Error sending configuration commands: " +:+ e);
           InstrClose].
Proof.
  induction cmds as [|cmd cmds IH]; [discriminate|].
  cbn [forallb configure]. unfold takes at 1.
  destruct (write_raises b cmd) as [e|] eqn:Hw.
  - intros _. exists [], cmd, cmds, e. repeat split. exact Hw.
  - cbn [andb]. intros H. destruct (IH H) as (taken & c & rest & e & -> & Ht & Hc & ->).
    exists (cmd :: taken), c, rest, e. repeat split.
    + cbn [forallb]. unfold takes at 1. now rewrite Hw, Ht.
    + exact Hc.
Qed.

Lemma start_accepted f b :
  accepted f = true ->
  exists freq level pause,
    sampling_freq_entry f = Some freq /\ sample_level_entry f = Some level
    /\ record_interval_entry f = Some pause
    /\ strip_text (filename_entry f) <> EmptyString
    /\ start f b =
       OpenResource "TCPIP0::192.168.0.10::inst0::INSTR" ::
       match connect_raises b with
       | Some e => [ShowError "Connection Error" ("Error connecting to instrument: " +:+ e)]
       | None =>
           configure b (setup_commands float_str f)
             [ClearStop;
              StartThread (with_csv (strip_text (filename_entry f))) pause (mode_var f);
              Status "Recording started..."]
       end.
Proof.
  unfold accepted, StartRecording, setup_commands. intros H.
  apply andb_prop in H as [H Hn]. apply andb_prop in H as [H Hi].
  apply andb_prop in H as [Hf Hl].
  destruct (sampling_freq_entry f) as [x|]; [|discriminate Hf]. rewrite Hf.
  destruct (sample_level_entry f) as [y|]; [|discriminate Hl]. rewrite Hl.
  destruct (record_interval_entry f) as [z|]; [|discriminate Hi]. rewrite Hi.
  cbn [negb]. apply negb_true_iff in Hn. rewrite Hn.
  exists x, y, z. repeat split.
  intros He. rewrite He in Hn. discriminate Hn.
Qed.

Lemma tally_app {A} (p : A -> bool) l1 l2 :
  tally p (l1 ++ l2) = (tally p l1 + tally p l2)%nat.
Proof. unfold tally. now rewrite filter_app, length_app. Qed.

Lemma tally_settled p cmds :
  (forall cmd, p (InstrWrite cmd) = false) -> p (Sleep 100000) = false ->
  tally p (sent_and_settled cmds) = 0%nat.
Proof.
  intros Hw Hs. induction cmds as [|cmd cmds IH]; [reflexivity|].
  cbn [sent_and_settled flat_map app]. unfold tally in *.
  rewrite !filter_cons_False by (rewrite ?Hw, ?Hs; discriminate). exact IH.
Qed.

(** X17. Once the connection is open, the handler either starts the thread, which
    then holds the instrument, or closes the instrument itself: always one of
    the two, never both. The thread is started exactly when the form passes
    its checks (the three numbers in range and a file name that is not all
    white space), the connection opens and the instrument takes all four
    commands; in any other case no thread runs. *)
Theorem instrument_handed_over_or_closed f b :
  let tr := start f b in
  (tally is_start_thread tr + tally is_close tr)%nat =
    (if accepted f && connects b then 1%nat else 0%nat)
  /\ tally is_start_thread tr =
     (if accepted f && connects b && forallb (takes b) (setup_commands float_str f)
      then 1%nat else 0%nat)
  /\ accepted f =
     frequency_ok (sampling_freq_entry f) && level_ok (sample_level_entry f)
     && interval_ok (record_interval_entry f)
     && negb (blank_text (filename_entry f)).
Proof.
  intros tr. subst tr.
  assert (Hacc : accepted f =
     frequency_ok (sampling_freq_entry f) && level_ok (sample_level_entry f)
     && interval_ok (record_interval_entry f)
     && negb (blank_text (filename_entry f))).
  { unfold accepted. f_equal. f_equal.
    destruct (blank_text (filename_entry f)) eqn:Hb.
    - apply strip_text_blank in Hb. now rewrite Hb.
    - destruct (strip_text (filename_entry f)) eqn:Hs; [|reflexivity].
      apply strip_text_blank in Hs. rewrite Hs in Hb. discriminate Hb. }
  match goal with |- ?P /\ ?Q /\ _ => cut (P /\ Q) end;
    [intros [HP HQ]; split; [exact HP|split; [exact HQ|exact Hacc]]|].
  clear Hacc.
  destruct (accepted f) eqn:Ha.
  - destruct (start_accepted f b Ha) as (x & y & z & _ & _ & _ & _ & ->).
    unfold connects. destruct (connect_raises b) as [e|]; [split; reflexivity|].
    cbn [andb]. destruct (forallb (takes b) (setup_commands float_str f)) eqn:Hall.
    + rewrite (configure_taken _ _ _ Hall).
      change (?a :: ?l ++ ?k) with ([a] ++ l ++ k). rewrite !tally_app.
      rewrite !tally_settled by reflexivity. split; reflexivity.
    + destruct (configure_refused b _
                  [ClearStop;
                   StartThread (with_csv (strip_text (filename_entry f))) z (mode_var f);
                   Status "Recording started..."] Hall)
        as (taken & c & rest & e & _ & _ & _ & ->).
      change (?a :: ?l ++ ?k) with ([a] ++ l ++ k). rewrite !tally_app.
      rewrite !tally_settled by reflexivity. split; reflexivity.
  - destruct (rejected_before_instrument float_str f b Ha) as (t & m & -> & _).
    split; reflexivity.
Qed.

Lemma commands_app t1 t2 : commands (t1 ++ t2) = commands t1 ++ commands t2.
Proof.
  induction t1 as [|a t1 IH]; [reflexivity|].
  destruct a; cbn [commands app]; rewrite IH; reflexivity.
Qed.

Lemma commands_settled cmds : commands (sent_and_settled cmds) = cmds.
Proof.
  induction cmds as [|cmd cmds IH]; [reflexivity|].
  cbn [sent_and_settled flat_map app commands]. f_equal. exact IH.
Qed.

(** X18. The instrument is configured in a fixed order: what the handler sends is
    always the first so-many of the four commands (mode, frequency, level,
    speed), it stops at the first one refused, and it sends all four exactly
    when the thread is started. *)
Theorem setup_commands_in_order f b :
  let tr := start f b in
  exists taken rest,
    setup_commands float_str f = taken ++ rest
    /\ forallb (takes b) taken = true
    /\ (commands tr = taken
        \/ exists cmd rest', rest = cmd :: rest' /\ takes b cmd = false
                             /\ commands tr = taken ++ [cmd])
    /\ (tally is_start_thread tr = 1%nat ->
        commands tr = setup_commands float_str f).
Proof.
  intros tr. subst tr. destruct (accepted f) eqn:Ha.
  - destruct (start_accepted f b Ha) as (x & y & z & _ & _ & _ & _ & ->).
    destruct (connect_raises b) as [e|].
    { exists [], (setup_commands float_str f). repeat split; [now left|discriminate]. }
    destruct (forallb (takes b) (setup_commands float_str f)) eqn:Hall.
    + rewrite (configure_taken _ _ _ Hall).
      assert (Hc : commands (OpenResource "TCPIP0::192.168.0.10::inst0::INSTR"
                       :: sent_and_settled (setup_commands float_str f)
                       ++ [ClearStop;
                           StartThread (with_csv (strip_text (filename_entry f))) z (mode_var f);
                           Status "Recording started..."])
                   = setup_commands float_str f).
      { cbn [commands]. rewrite commands_app, commands_settled. cbn. apply app_nil_r. }
      exists (setup_commands float_str f), []. rewrite app_nil_r, Hc.
      repeat split; [exact Hall|now left].
    + destruct (configure_refused b _
                  [ClearStop;
                   StartThread (with_csv (strip_text (filename_entry f))) z (mode_var f);
                   Status "Recording started..."] Hall)
        as (taken & c & rest & e & Hsplit & Ht & Hr & ->).
      exists taken, (c :: rest). split; [exact Hsplit|]. split; [exact Ht|].
      assert (Hc : commands (OpenResource "TCPIP0::192.168.0.10::inst0::INSTR"
                       :: sent_and_settled taken
                       ++ [InstrWrite c;
                           ShowError "Configuration Error"
                             ("Error sending configuration commands: " +:+ e);
                           InstrClose])
                   = taken ++ [c]).
      { cbn [commands]. rewrite commands_app, commands_settled. reflexivity. }
      rewrite Hc. split.
      * right. exists c, rest. unfold takes. rewrite Hr. repeat split.
      * change (?a :: ?l ++ ?k) with ([a] ++ l ++ k). rewrite !tally_app.
        rewrite !tally_settled by reflexivity. discriminate.
  - destruct (rejected_before_instrument float_str f b Ha) as (t & m & -> & _).
    exists [], (setup_commands float_str f). repeat split; [now left|discriminate].
Qed.

Lemma thread_in_configure b cmds k name pause mode :
  In (StartThread name pause mode) (configure b cmds k) ->
  In (StartThread name pause mode) k.
Proof.
  induction cmds as [|cmd cmds IH]; [trivial|].
  cbn [configure]. destruct (write_raises b cmd).
  - intros [H|[H|[H|[]]]]; discriminate H.
  - intros [H|[H|H]]; [discriminate H|discriminate H|now apply IH].
Qed.

(** X19. What the thread is given, line 96: the name typed, with the
    white-space characters at its two ends taken off and nothing else, and
    with the [.csv] suffix, so never empty; the interval as entered, which passed the
    interval check; and the mode selected. *)
Theorem thread_arguments f b name pause mode :
  In (StartThread name pause mode) (start f b) ->
  name = with_csv (strip_text (filename_entry f))
  /\ (exists lead kept trail,
        chars (filename_entry f) = lead ++ kept ++ trail
        /\ String.concat EmptyString (chars (filename_entry f)) = filename_entry f
        /\ strip_text (filename_entry f) = String.concat EmptyString kept
        /\ forallb is_space lead = true /\ forallb is_space trail = true
        /\ (forall ch, head kept = Some ch -> is_space ch = false)
        /\ (forall ch, list.last kept = Some ch -> is_space ch = false))
  /\ strip_text (filename_entry f) <> EmptyString
  /\ name <> EmptyString
  /\ endswith ".csv" (map_chars lower_char name) = true
  /\ record_interval_entry f = Some pause
  /\ interval_ok (Some pause) = true
  /\ mode = mode_var f
  /\ accepted f = true /\ connects b = true.
Proof.
  intros Hin. destruct (accepted f) eqn:Ha.
  - destruct (start_accepted f b Ha) as (x & y & z & _ & _ & Hz & Hne' & Heq).
    rewrite Heq in Hin. destruct Hin as [Hin|Hin]; [discriminate Hin|].
    unfold connects. destruct (connect_raises b) as [e|].
    { destruct Hin as [Hin|[]]; discriminate Hin. }
    apply thread_in_configure in Hin.
    destruct Hin as [Hin|[Hin|[Hin|[]]]]; try discriminate Hin.
    injection Hin as <- <- <-.
    destruct (filename_gets_csv_suffix_aux (strip_text (filename_entry f))) as [He Hne].
    split; [reflexivity|]. split.
    { destruct (strip_chars_margins (chars (filename_entry f)))
        as (lead & trail & Hs & Hl & Ht & Hh & Hla).
      exists lead, (rstrip_chars (lstrip_chars (chars (filename_entry f)))), trail.
      split; [exact Hs|]. split; [apply chars_concat|]. split; [reflexivity|].
      repeat split; assumption. }
    repeat split; try assumption.
    unfold accepted in Ha. rewrite Hz in Ha.
    apply andb_prop in Ha as [Ha _]. now apply andb_prop in Ha as [_ Ha].
  - destruct (rejected_before_instrument float_str f b Ha) as (t & m & Heq & _).
    rewrite Heq in Hin. destruct Hin as [Hin|[]]; discriminate Hin.
Qed.

End StartMore.

(** ** The acquisition thread beyond the rows it writes *)

Section RecorderMore.
Import Recorder More.
Local Open Scope Z_scope.

Variable filename : string.
Variable interval : N.
Variable start_time : Z.

Local Abbreviation body := (iteration_body filename interval start_time).
Local Abbreviation rows := (file_rows filename).
Local Abbreviation loop := (Recorder.loop filename interval start_time).
Local Abbreviation record := (RecordMeasurements filename interval start_time).

Ltac unfold_pass :=
  cbv [iteration_body attempt try_except bind emit elapse outcome
       instrument_write instrument_query sleep time_time writerow flush
       foreground write_out StopRecording trace_of state_of result_of
       produced fetched reading failure completed wrote triggered];
  cbn [fst snd app clock files pending StopEvent
       trg_raises trg_takes settle_over fetch fetch_takes writerow_raises
       flush_raises store_takes interval_over stop_pressed].

Ltac by_cases it :=
  let tr := fresh "tr" in let wr := fresh "wr" in
  let fr := fresh "fr" in let sp := fresh "sp" in
  let ex := fresh "ex" in let data := fresh "data" in
  destruct it as [tr ? ? [ex|data] ? wr fr ? ? sp];
  destruct tr, wr, fr, sp; unfold_pass.

(** *** How the thread function ends *)

Lemma record_open_fails env mode st e :
  open_raises env = Some e ->
  record env mode st = ([EvOpenWrite filename], st, Raises e).
Proof.
  intros Ho. unfold RecordMeasurements, with_open.
  cbv [bind emit outcome]. rewrite Ho. reflexivity.
Qed.

Lemma record_header_fails env mode st e :
  open_raises env = None -> header_raises env = Some e ->
  record env mode st =
  ([EvOpenWrite filename; EvWriteRow (header_of mode); EvFileClose],
   match file_close_raises env with
   | Some _ => State (clock st) (<[filename := []]> (files st)) [] (StopEvent st)
   | None => write_out filename
               (State (clock st) (<[filename := []]> (files st)) [] (StopEvent st))
   end,
   match file_close_raises env with Some e' => Raises e' | None => Raises e end).
Proof.
  intros Ho Hh. unfold RecordMeasurements, with_open, writerow.
  cbv [bind emit outcome]. rewrite Ho, Hh. cbn [clock files pending StopEvent app].
  destruct (file_close_raises env); reflexivity.
Qed.

(** *** What is on disk after a stop *)

Lemma loop_other_files sched st f :
  f <> filename -> files (state_of (loop sched st)) !! f = files st !! f.
Proof.
  intros Hf. revert st. induction sched as [|it rest IH]; intros st.
  - destruct (StopEvent st) eqn:Hs.
    + now rewrite loop_stop.
    + now rewrite loop_nil.
  - destruct (StopEvent st) eqn:Hs.
    + now rewrite loop_stop.
    + rewrite loop_cons_state by assumption.
      rewrite IH. now apply iteration_body_other_files.
Qed.


(** X8. A run touches no file but its own. *)
Theorem other_files_untouched env mode st f :
  f <> filename ->
  files (state_of (record env mode st)) !! f = files st !! f.
Proof.
  intros Hf.
  assert (Hw : forall s, files (write_out filename s) !! f = files s !! f).
  { intros s. unfold write_out. cbn [files]. now rewrite lookup_insert_ne by congruence. }
  assert (Ha : files (at_loop filename mode st) !! f = files st !! f).
  { unfold at_loop. cbn [files]. now rewrite lookup_insert_ne by congruence. }
  destruct (open_raises env) as [e|] eqn:Ho.
  { now rewrite (record_open_fails env mode st e Ho). }
  destruct (header_raises env) as [e|] eqn:Hh.
  { rewrite (record_header_fails env mode st e Ho Hh).
    destruct (file_close_raises env); unfold state_of; cbn [fst snd];
      rewrite ?Hw; cbn [files]; now rewrite lookup_insert_ne by congruence. }
  rewrite (RecordMeasurements_run filename interval start_time env mode st Ho Hh).
  destruct (terminates _ _);
    [destruct (file_close_raises env); [|destruct (instr_close_raises env)]|];
    unfold state_of at 1; cbn [fst snd]; rewrite ?Hw, loop_other_files by assumption;
    exact Ha.
Qed.

(** *** The rate of the rows *)

Lemma iteration_body_pace it st :
  is_Some (produced start_time it st) ->
  reading it st + Z.of_N interval <= clock (state_of (body it st)).
Proof.
  by_cases it; intros [r Hr]; try discriminate Hr; lia.
Qed.

Lemma paced_weaken gap lo lo' rs : lo' <= lo -> paced gap lo rs -> paced gap lo' rs.
Proof.
  intros Hlo. destruct rs as [|r rs]; [trivial|].
  intros (e & vs & -> & He & Hp). exists e, vs. repeat split; [lia|exact Hp].
Qed.

(** X3. Rows come no faster than the settle delay and the recording interval
    allow: the first row of a run is stamped at least 0.2 s after the loop is
    entered, and every later row at least 0.2 s plus the interval after the
    row before it. *)
Theorem rows_paced sched st :
  exists added,
    rows (state_of (loop sched st)) = rows st ++ added
    /\ paced (200000 + Z.of_N interval) (clock st - start_time - Z.of_N interval) added.
Proof.
  revert st. induction sched as [|it rest IH]; intros st.
  - exists []. destruct (StopEvent st) eqn:Hs.
    + rewrite loop_stop by assumption. cbn. now rewrite app_nil_r.
    + rewrite loop_nil by assumption. cbn. now rewrite app_nil_r.
  - destruct (StopEvent st) eqn:Hs.
    + exists []. rewrite loop_stop by assumption. cbn. now rewrite app_nil_r.
    + rewrite loop_cons_state by assumption.
      destruct (IH (state_of (body it st))) as (added & Hrows & Hp).
      rewrite Hrows, iteration_body_rows.
      pose proof (iteration_body_clock filename interval start_time it st) as [Hc Hr].
      pose proof (iteration_body_pace it st) as Hpace.
      destruct (produced start_time it st) as [r|] eqn:Hprod.
      * exists (r :: added). rewrite <- app_assoc. split; [reflexivity|].
        specialize (Hr ltac:(eauto)). specialize (Hpace ltac:(eauto)).
        assert (Hrow : exists vs, r = Stamp.format3 (reading it st - start_time) :: vs).
        { unfold produced in Hprod. destruct (fetched it); [|discriminate].
          destruct (writerow_raises it); [discriminate|]. injection Hprod as <-. eauto. }
        destruct Hrow as [vs ->].
        exists (reading it st - start_time), vs. repeat split; [lia|].
        eapply paced_weaken; [|exact Hp]. lia.
      * exists added. cbn [option_list]. rewrite app_nil_r. split; [reflexivity|].
        eapply paced_weaken; [|exact Hp]. lia.
Qed.

(** *** What the console shows *)

Lemma iteration_body_console it st :
  count is_row_echo (trace_of (body it st)) = (if completed it then 1%nat else 0%nat)
  /\ count is_error_report (trace_of (body it st)) = (if completed it then 0%nat else 1%nat).
Proof. by_cases it; split; reflexivity. Qed.

(** X4. Every pass shows on the console exactly once: as the echo of its row
    when it ran to the end of its body, as an error line otherwise. *)
Theorem console_reports_every_pass sched st :
  let tr := trace_of (loop sched st) in
  let passes := executed (StopEvent st) sched in
  count is_row_echo tr = length (filter (fun it => completed it = true) passes)
  /\ count is_error_report tr = length (filter (fun it => completed it = false) passes)
  /\ (count is_row_echo tr + count is_error_report tr)%nat = length passes.
Proof.
  cbv zeta.
  assert (H : count is_row_echo (trace_of (loop sched st))
              = length (filter (fun it => completed it = true) (executed (StopEvent st) sched))
              /\ count is_error_report (trace_of (loop sched st))
                 = length (filter (fun it => completed it = false)
                             (executed (StopEvent st) sched))).
  { revert st. induction sched as [|it rest IH]; intros st.
    - destruct (StopEvent st) eqn:Hs.
      + rewrite loop_stop by assumption. split; reflexivity.
      + rewrite loop_nil by assumption. split; reflexivity.
    - destruct (StopEvent st) eqn:Hs.
      + rewrite loop_stop by assumption. split; reflexivity.
      + rewrite loop_cons_trace by assumption. cbn [executed].
        rewrite !count_cons, !count_app.
        destruct (iteration_body_console it st) as [-> ->].
        destruct (IH (state_of (body it st))) as [-> ->].
        rewrite iteration_body_stop, Hs. cbn [orb is_row_echo is_error_report].
        destruct (completed it) eqn:Hc.
        * rewrite filter_cons_True by assumption.
          rewrite filter_cons_False by congruence. split; reflexivity.
        * rewrite filter_cons_False by congruence.
          rewrite filter_cons_True by assumption. split; reflexivity. }
  destruct H as [-> ->]. split; [reflexivity|]. split; [reflexivity|].
  induction (executed (StopEvent st) sched) as [|it l IHl]; [reflexivity|].
  destruct (completed it) eqn:Hc.
  - rewrite filter_cons_True by assumption. rewrite filter_cons_False by congruence.
    cbn [length]. lia.
  - rewrite filter_cons_False by congruence. rewrite filter_cons_True by assumption.
    cbn [length]. lia.
Qed.

(** *** What the instrument is sent *)

Lemma iteration_body_traffic it st :
  Forall only_trigger_and_fetch (trace_of (body it st))
  /\ count is_query (trace_of (body it st)) = (if triggered it then 1%nat else 0%nat).
Proof. by_cases it; split; try reflexivity; repeat constructor. Qed.

(** X5. The loop sends the instrument nothing but the trigger and the fetch
    query: one trigger per pass, and one query in each pass whose trigger was
    taken, so never a query without a trigger before it. *)
Theorem instrument_traffic sched st :
  let tr := trace_of (loop sched st) in
  let passes := executed (StopEvent st) sched in
  Forall only_trigger_and_fetch tr
  /\ count is_trigger tr = length passes
  /\ count is_query tr = length (filter (fun it => triggered it = true) passes)
  /\ (count is_query tr <= count is_trigger tr)%nat.
Proof.
  cbv zeta.
  assert (H : Forall only_trigger_and_fetch (trace_of (loop sched st))
              /\ count is_query (trace_of (loop sched st))
                 = length (filter (fun it => triggered it = true)
                             (executed (StopEvent st) sched))).
  { revert st. induction sched as [|it rest IH]; intros st.
    - destruct (StopEvent st) eqn:Hs.
      + rewrite loop_stop by assumption. split; [repeat constructor|reflexivity].
      + rewrite loop_nil by assumption. split; [repeat constructor|reflexivity].
    - destruct (StopEvent st) eqn:Hs.
      + rewrite loop_stop by assumption. split; [repeat constructor|reflexivity].
      + rewrite loop_cons_trace by assumption. cbn [executed].
        destruct (iteration_body_traffic it st) as [Hf Hq].
        destruct (IH (state_of (body it st))) as [IHf IHq].
        rewrite iteration_body_stop, Hs in IHq. cbn [orb] in IHq. split.
        * constructor; [exact I|]. apply Forall_app. split; assumption.
        * rewrite count_cons, count_app, Hq, IHq. cbn [is_query].
          destruct (triggered it) eqn:Ht.
          -- rewrite filter_cons_True by assumption. reflexivity.
          -- rewrite filter_cons_False by congruence. reflexivity. }
  destruct H as [Hf Hq]. split; [exact Hf|].
  destruct (loop_polls filename interval start_time sched st) as [_ Ht].
  split; [exact Ht|]. split; [exact Hq|].
  rewrite Hq, Ht. apply length_filter.
Qed.

(** *** Where the schedule is cut *)

Lemma loop_executed sched st : loop sched st = loop (executed (StopEvent st) sched) st.
Proof.
  revert st. induction sched as [|it rest IH]; intros st.
  - destruct (StopEvent st); reflexivity.
  - destruct (StopEvent st) eqn:Hs.
    + now rewrite !loop_stop.
    + cbn [executed]. rewrite !(loop_cons filename interval start_time) by assumption.
      assert (Hn : StopEvent (state_of (body it st)) = stop_pressed it)
        by now rewrite iteration_body_stop, Hs.
      rewrite (IH (state_of (body it st))), Hn. reflexivity.
Qed.

Lemma executed_until_pressed before it after :
  forallb (fun i => negb (stop_pressed i)) before = true ->
  stop_pressed it = true ->
  executed false (before ++ it :: after) = before ++ [it].
Proof.
  intros Hb Hp. induction before as [|i before IH].
  - cbn. rewrite Hp. now destruct after.
  - cbn [forallb] in Hb. apply andb_prop in Hb as [Hi Hb].
    apply negb_true_iff in Hi. cbn [app executed]. rewrite Hi. f_equal. now apply IH.
Qed.

(** The flag after the loop, when the interval is one the sleep takes. *)
Lemma loop_flag sched st :
  StopEvent (state_of (loop sched st)) = terminates (StopEvent st) sched
  /\ (result_of (loop sched st) = Done tt <-> StopEvent (state_of (loop sched st)) = true)
  /\ (StopEvent st = true -> StopEvent (state_of (loop sched st)) = true).
Proof.
  assert (H : StopEvent (state_of (loop sched st)) = terminates (StopEvent st) sched).
  { revert st. induction sched as [|it rest IH]; intros st.
    - unfold terminates. destruct (StopEvent st) eqn:Hs.
      + now rewrite loop_stop.
      + rewrite loop_nil by assumption. cbn. now rewrite Hs.
    - unfold terminates. destruct (StopEvent st) eqn:Hs.
      + now rewrite loop_stop.
      + rewrite loop_cons_state by assumption.
        rewrite IH, iteration_body_stop, Hs. reflexivity. }
  split; [exact H|]. rewrite H, loop_result. split.
  - destruct (terminates (StopEvent st) sched); split; congruence.
  - intros Hs. unfold terminates. now rewrite Hs.
Qed.

(** Passes after the one in which stop is pressed do not run. *)
Lemma loop_cut before it after st :
  StopEvent st = false ->
  forallb (fun i => negb (stop_pressed i)) before = true ->
  stop_pressed it = true ->
  loop (before ++ it :: after) st = loop (before ++ [it]) st
  /\ result_of (loop (before ++ it :: after) st) = Done tt
  /\ count is_trigger (trace_of (loop (before ++ it :: after) st))
     = S (length before).
Proof.
  intros Hs Hb Hp.
  assert (He : loop (before ++ it :: after) st = loop (before ++ [it]) st).
  { rewrite (loop_executed (before ++ it :: after)), (loop_executed (before ++ [it])), Hs.
    now rewrite !executed_until_pressed. }
  split; [exact He|]. split.
  - rewrite loop_result, Hs. unfold terminates. cbn [orb].
    rewrite existsb_app. cbn [existsb]. rewrite Hp. now rewrite orb_true_r.
  - destruct (loop_polls filename interval start_time (before ++ it :: after) st) as [_ Ht].
    rewrite Ht, Hs, executed_until_pressed by assumption.
    rewrite length_app. cbn [length]. lia.
Qed.

End RecorderMore.


(** ** The thread for any interval: how it ends *)

Section ThreadMore.
Import Recorder More.
Local Open Scope Z_scope.

Variable filename : string.
Variable start_time : Z.

Local Abbreviation pass := (Thread.pass filename start_time).
Local Abbreviation tloop := (Thread.loop filename start_time).
Local Abbreviation trecord := (Thread.RecordMeasurements filename start_time).

Lemma trecord_open_fails x env mode st e :
  open_raises env = Some e ->
  trecord x env mode st = ([EvOpenWrite filename], st, Raises e).
Proof.
  intros Ho. unfold Thread.RecordMeasurements, with_open.
  cbv [bind emit outcome]. rewrite Ho. reflexivity.
Qed.

Lemma trecord_header_fails x env mode st e :
  open_raises env = None -> header_raises env = Some e ->
  trace_of (trecord x env mode st)
  = [EvOpenWrite filename; EvWriteRow (header_of mode); EvFileClose]
  /\ result_of (trecord x env mode st)
     = match file_close_raises env with Some e' => Raises e' | None => Raises e end.
Proof.
  intros Ho Hh. unfold Thread.RecordMeasurements, with_open, writerow.
  cbv [bind emit outcome]. rewrite Ho, Hh. cbn [clock files pending StopEvent app].
  destruct (file_close_raises env); split; reflexivity.
Qed.

Lemma pass_quiet x it st :
  count is_instr_close (trace_of (pass x it st)) = 0%nat
  /\ count is_trigger (trace_of (pass x it st)) = 1%nat.
Proof.
  destruct (Thread.sleep_outcome x) as [e|us] eqn:Hx.
  - destruct (pass_refused filename start_time x e it st Hx) as (_ & Htr & _).
    pose proof (proj1 (iteration_body_no_close filename 0 start_time it st)) as Hc.
    pose proof (iteration_body_one_trigger filename 0 start_time it st) as Ht.
    rewrite (Htr 0%N), count_app in Hc, Ht. cbn in Hc, Ht. split; lia.
  - rewrite (pass_taken filename start_time x us it st Hx). split.
    + apply iteration_body_no_close.
    + apply iteration_body_one_trigger.
Qed.

Lemma tloop_no_close x sched st :
  count is_instr_close (trace_of (tloop x sched st)) = 0%nat.
Proof.
  destruct (Thread.sleep_outcome x) as [e|us] eqn:Hx.
  - destruct (StopEvent st) eqn:Hs; [now rewrite tloop_stop|].
    destruct sched as [|it rest]; [now rewrite tloop_nil|].
    rewrite (tloop_refused filename start_time x e it rest st Hx Hs).
    unfold trace_of at 1. cbn [fst]. rewrite count_cons. cbn [is_instr_close].
    apply pass_quiet.
  - rewrite (tloop_taken filename start_time x us sched st Hx).
    apply loop_quiet_counts.
Qed.

(** X2. The instrument is closed by the thread only at the end of a run in which
    the file opened, the header was written, the loop saw the stop flag and
    the file closed without error; in every other run the thread function
    ends without closing it. An error from opening the file, writing the
    header, the interval sleep or closing the file or the instrument is what
    the thread function raises; errors inside the try body never are. *)
Theorem close_reached_only_after_clean_stop x env mode st :
  let r := trecord x env mode st in
  let clean :=
    match open_raises env, header_raises env, file_close_raises env with
    | None, None, None =>
        match Thread.ending x (StopEvent st) (schedule env) with
        | Done _ => true
        | _ => false
        end
    | _, _, _ => false
    end in
  count is_instr_close (trace_of r) = (if clean then 1%nat else 0%nat)
  /\ result_of r =
     match open_raises env with
     | Some e => Raises e
     | None =>
         match header_raises env with
         | Some e =>
             match file_close_raises env with Some e' => Raises e' | None => Raises e end
         | None =>
             match Thread.ending x (StopEvent st) (schedule env) with
             | Running => Running
             | Raises e =>
                 match file_close_raises env with
                 | Some e' => Raises e'
                 | None => Raises e
                 end
             | Done _ =>
                 match file_close_raises env, instr_close_raises env with
                 | Some e, _ => Raises e
                 | None, Some e => Raises e
                 | None, None => Done tt
                 end
             end
         end
     end
  /\ (forall e, Thread.sleep_outcome x = inl e ->
      StopEvent st = false -> schedule env <> [] ->
      count is_instr_close (trace_of r) = 0%nat /\ exists e', result_of r = Raises e')
  /\ (forall us, Thread.sleep_outcome x = inr us ->
      open_raises env = None -> header_raises env = None ->
      file_close_raises env = None ->
      count is_instr_close (trace_of r) =
      (if StopEvent st || existsb stop_pressed (schedule env) then 1%nat else 0%nat)).
Proof.
  intros r clean.
  assert (Hmain :
    count is_instr_close (trace_of r) = (if clean then 1%nat else 0%nat)
    /\ result_of r =
       match open_raises env with
       | Some e => Raises e
       | None =>
           match header_raises env with
           | Some e =>
               match file_close_raises env with Some e' => Raises e' | None => Raises e end
           | None =>
               match Thread.ending x (StopEvent st) (schedule env) with
               | Running => Running
               | Raises e =>
                   match file_close_raises env with
                   | Some e' => Raises e'
                   | None => Raises e
                   end
               | Done _ =>
                   match file_close_raises env, instr_close_raises env with
                   | Some e, _ => Raises e
                   | None, Some e => Raises e
                   | None, None => Done tt
                   end
               end
           end
       end).
  { subst r clean.
    destruct (open_raises env) as [e|] eqn:Ho.
    { rewrite (trecord_open_fails x env mode st e Ho). split; reflexivity. }
    destruct (header_raises env) as [e|] eqn:Hh.
    { destruct (trecord_header_fails x env mode st e Ho Hh) as [-> ->].
      destruct (file_close_raises env); split; reflexivity. }
    split; [|now apply trecord_result].
    rewrite (trecord_run filename start_time x env mode st Ho Hh).
    pose proof (tloop_no_close x (schedule env) (at_loop filename mode st)) as Hi.
    pose proof (tloop_result filename start_time x (schedule env)
                  (at_loop filename mode st)) as Hr.
    cbn [at_loop StopEvent] in Hr. rewrite <- Hr.
    set (y := tloop x (schedule env) (at_loop filename mode st)) in *.
    destruct (result_of y) as [[]|e|];
      destruct (file_close_raises env), (instr_close_raises env);
      unfold trace_of at 1; cbn [fst];
      repeat (rewrite count_app || rewrite count_cons); rewrite Hi; reflexivity. }
  destruct Hmain as [Hc Hr]. split; [exact Hc|]. split; [exact Hr|]. split.
  - intros e Hx Hs Hne. rewrite Hc, Hr. subst clean. unfold Thread.ending.
    rewrite Hx, Hs. destruct (schedule env) as [|it rest]; [now contradiction Hne|].
    destruct (open_raises env); [split; eauto|].
    destruct (header_raises env); destruct (file_close_raises env); split; eauto.
  - intros us Hx Ho Hh Hf. rewrite Hc. subst clean. unfold Thread.ending, terminates.
    rewrite Hx, Ho, Hh, Hf.
    destruct (StopEvent st || existsb stop_pressed (schedule env)); reflexivity.
Qed.

Lemma tloop_flag_first x e it rest st :
  Thread.sleep_outcome x = inl e -> StopEvent st = false ->
  StopEvent (state_of (tloop x (it :: rest) st)) = stop_pressed it.
Proof.
  intros Hx Hs. rewrite (tloop_refused filename start_time x e it rest st Hx Hs).
  unfold state_of at 1. cbn [fst snd]. now rewrite pass_stop, Hs.
Qed.

(** X7. The thread never lowers the stop flag, and the loop returns only with
    the flag set. With an interval the sleep takes, the loop returns exactly
    when the flag is set at one of its polls; with an interval the sleep
    refuses, it returns only if the flag was set before its first poll, and
    otherwise ends in the error of the sleep after its first pass. *)
Theorem loop_returns_iff_flag_set x sched st :
  let r := tloop x sched st in
  (result_of r = Done tt -> StopEvent (state_of r) = true)
  /\ (StopEvent st = true -> StopEvent (state_of r) = true /\ result_of r = Done tt)
  /\ (forall us, Thread.sleep_outcome x = inr us ->
      StopEvent (state_of r) = StopEvent st || existsb stop_pressed sched
      /\ (result_of r = Done tt <-> StopEvent (state_of r) = true))
  /\ (forall e it rest, Thread.sleep_outcome x = inl e ->
      StopEvent st = false -> sched = it :: rest ->
      result_of r = Raises e /\ StopEvent (state_of r) = stop_pressed it).
Proof.
  intros r. subst r.
  assert (Hset : StopEvent st = true ->
                 StopEvent (state_of (tloop x sched st)) = true
                 /\ result_of (tloop x sched st) = Done tt).
  { intros Hs. rewrite tloop_stop by assumption. split; [exact Hs|reflexivity]. }
  assert (Htaken : forall us, Thread.sleep_outcome x = inr us ->
            StopEvent (state_of (tloop x sched st))
            = StopEvent st || existsb stop_pressed sched
            /\ (result_of (tloop x sched st) = Done tt
                <-> StopEvent (state_of (tloop x sched st)) = true)).
  { intros us Hx. rewrite (tloop_taken filename start_time x us sched st Hx).
    destruct (loop_flag filename us start_time sched st) as (H1 & H2 & _).
    split; [exact H1|exact H2]. }
  split.
  { destruct (Thread.sleep_outcome x) as [e|us] eqn:Hx.
    - destruct (StopEvent st) eqn:Hs; [intros _; now apply Hset|].
      destruct sched as [|it rest].
      + rewrite tloop_nil by assumption. discriminate.
      + rewrite (tloop_refused filename start_time x e it rest st Hx Hs). discriminate.
    - apply (Htaken us eq_refl). }
  split; [exact Hset|]. split; [exact Htaken|].
  intros e it rest Hx Hs ->. split.
  - now rewrite (tloop_refused filename start_time x e it rest st Hx Hs).
  - now apply (tloop_flag_first x e).
Qed.

(** X6. With an interval the sleep takes, passes scheduled after the one
    during which stop is pressed are never started: the run is the run of the
    passes up to and including that one, it returns, and it has sent as many
    triggers as there are such passes. With an interval the sleep refuses,
    only the first scheduled pass is started, and one trigger is sent. *)
Theorem stop_cuts_schedule x before it after st :
  StopEvent st = false ->
  forallb (fun i => negb (stop_pressed i)) before = true ->
  stop_pressed it = true ->
  (forall us, Thread.sleep_outcome x = inr us ->
     tloop x (before ++ it :: after) st = tloop x (before ++ [it]) st
     /\ result_of (tloop x (before ++ it :: after) st) = Done tt
     /\ count is_trigger (trace_of (tloop x (before ++ it :: after) st))
        = S (length before))
  /\ (forall e first rest, Thread.sleep_outcome x = inl e ->
      before ++ it :: after = first :: rest ->
      tloop x (before ++ it :: after) st = tloop x [first] st
      /\ result_of (tloop x (before ++ it :: after) st) = Raises e
      /\ count is_trigger (trace_of (tloop x (before ++ it :: after) st)) = 1%nat).
Proof.
  intros Hs Hb Hp. split.
  - intros us Hx. rewrite !(tloop_taken filename start_time x us _ st Hx).
    now apply loop_cut.
  - intros e first rest Hx ->.
    rewrite !(tloop_refused filename start_time x e first _ st Hx Hs).
    split; [reflexivity|]. split; [reflexivity|].
    unfold trace_of at 1. cbn [fst]. rewrite count_cons. cbn [is_trigger].
    apply pass_quiet.
Qed.

End ThreadMore.

(** ** The multimeter check *)

Section DMMFacts.
Import More DMM.

Ltac outcomes fn :=
  repeat match goal with
         | |- context [match fn ?c with _ => _ end] => destruct (fn c)
         end.

(** X20. The connection is closed whenever it was opened, as the last call of the
    script, whatever a command or a query raised before. An error in the body
    is printed and goes no further; the script ends in an error only if the
    connection cannot be opened or the close itself raises. *)
Theorem dmm_always_closes b :
  let tr := fst (script b) in
  tally is_close tr = (match connect_raises b with Some _ => 0%nat | None => 1%nat end)
  /\ (connect_raises b = None ->
      exists pre, tr = pre ++ [Close] /\ tally is_close pre = 0%nat)
  /\ snd (script b) =
     match connect_raises b, close_raises b with
     | Some e, _ => inl e
     | None, Some e => inl e
     | None, None => inr tt
     end.
Proof.
  destruct b as [cr wr an cl]. cbv zeta. unfold script. cbn [connect_raises close_raises].
  destruct cr as [e|]; [repeat split; discriminate|].
  cbv [bind try_except_finally body write query sleep print write_raises answer].
  outcomes wr; outcomes an; destruct cl; cbn [fst snd app].
  all: split; [reflexivity|]; (split; [|reflexivity]); intros _.
  all: match goal with
       | |- exists pre, ?l = _ /\ _ => exists (removelast l); split; reflexivity
       end.
Qed.

Lemma attempted_prefix b cmds :
  exists rest,
    cmds = attempted b cmds ++ rest
    /\ (forallb (unrefused b) cmds = true -> rest = [])
    /\ forallb (unrefused b) (removelast (attempted b cmds)) = true.
Proof.
  induction cmds as [|cmd cmds (rest & Heq & Hall & Hpre)]; [now exists []|].
  cbn [attempted forallb]. unfold unrefused at 1 2.
  destruct (refusal b cmd) as [e|] eqn:Hr.
  - exists cmds. repeat split. discriminate.
  - exists rest. split; [cbn [app]; now f_equal|]. split; [exact Hall|].
    destruct (attempted b cmds) as [|c l] eqn:Ha; [reflexivity|].
    cbn [removelast forallb] in *. unfold unrefused at 1. now rewrite Hr, Hpre.
Qed.

(** X21. The script sends its six commands in order and stops at the first one
    the instrument refuses: what is sent is the commands before that one and
    that one, all six if none is refused. It prints one error line if a
    command was refused and none otherwise. *)
Theorem dmm_stops_at_first_refusal b :
  connect_raises b = None ->
  let tr := fst (script b) in
  sent tr = attempted b protocol
  /\ tally is_error tr = (if forallb (unrefused b) protocol then 0%nat else 1%nat)
  /\ (exists rest, protocol = sent tr ++ rest
                  /\ forallb (unrefused b) (removelast (sent tr)) = true)
  /\ (forallb (unrefused b) protocol = true -> sent tr = protocol).
Proof.
  intros Hc. cbv zeta.
  assert (H : sent (fst (script b)) = attempted b protocol
              /\ tally is_error (fst (script b))
                 = (if forallb (unrefused b) protocol then 0%nat else 1%nat)).
  { destruct b as [cr wr an cl]. cbn [connect_raises] in Hc. subst cr.
    unfold script, protocol, unrefused. cbn [connect_raises close_raises attempted forallb].
    unfold refusal. cbn [String.eqb Ascii.eqb Bool.eqb orb andb write_raises answer].
    cbv [bind try_except_finally body write query sleep print write_raises answer].
    outcomes wr; outcomes an; destruct cl; cbn [fst snd app]; split; reflexivity. }
  destruct H as [Hs He]. split; [exact Hs|]. split; [exact He|].
  destruct (attempted_prefix b protocol) as (rest & Heq & Hall & Hpre).
  rewrite Hs. split.
  - exists rest. split; assumption.
  - intros Hok. specialize (Hall Hok). subst rest. now rewrite app_nil_r in Heq.
Qed.

End DMMFacts.

(** ** Sample runs for the further properties *)

Section MoreSamples.
Import Recorder.

Lemma blank_filename_rejected_witness :
  Start.StartRecording Start.sample_float_str Setup.blank_name_form Start.willing
  = [Start.ShowError "Input Error" "Please provide a CSV filename."].
Proof.
  destruct (blank_filename_rejected Start.sample_float_str Setup.blank_name_form
              Start.willing eq_refl eq_refl eq_refl) as [H _].
  exact (proj1 (H eq_refl)).
Defined.

Lemma thread_arguments_witness :
  "Run7.CSV" = Start.with_csv (Start.strip_text "  Run7.CSV ")
  /\ Start.endswith ".csv" (Start.map_chars Start.lower_char "Run7.CSV") = true.
Proof.
  assert (Hin : In (Start.StartThread "Run7.CSV" (Start.Finite (1 # 100)) "C")
                  (Start.StartRecording Start.sample_float_str Setup.capitals_form
                     Start.willing)).
  { vm_compute. tauto. }
  destruct (thread_arguments Start.sample_float_str Setup.capitals_form Start.willing
              "Run7.CSV" (Start.Finite (1 # 100)) "C" Hin) as (H1 & _ & _ & _ & H3 & _).
  split; [exact H1|exact H3].
Defined.


Lemma other_files_untouched_witness :
  files (state_of (RecordMeasurements "m.csv" 10000 0 (quiet glitch_run) "C"
                     (initial 0 (<["other.csv" := [["kept"]]]> ∅) false)))
    !! "other.csv"
  = Some [["kept"]].
Proof.
  assert (Hne : "other.csv" <> "m.csv") by discriminate.
  rewrite (other_files_untouched "m.csv" 10000 0 (quiet glitch_run) "C"
             (initial 0 (<["other.csv" := [["kept"]]]> ∅) false) "other.csv" Hne).
  reflexivity.
Defined.

Lemma stop_cuts_schedule_witness :
  Thread.loop "m.csv" 0 Thread.ten_ms
    ([answers "1" 0 false] ++ answers "2" 0 true :: [answers "3" 0 false]) fresh_C
  = Thread.loop "m.csv" 0 Thread.ten_ms
      ([answers "1" 0 false] ++ [answers "2" 0 true]) fresh_C.
Proof.
  destruct (stop_cuts_schedule "m.csv" 0 Thread.ten_ms [answers "1" 0 false]
              (answers "2" 0 true) [answers "3" 0 false] fresh_C
              eq_refl eq_refl eq_refl) as [H _].
  exact (proj1 (H 10000%N eq_refl)).
Defined.

Lemma dmm_stops_at_first_refusal_witness :
  DMM.sent (fst (DMM.script DMM.no_sens_data)) = DMM.attempted DMM.no_sens_data DMM.protocol
  /\ More.tally DMM.is_error (fst (DMM.script DMM.no_sens_data)) = 1%nat.
Proof.
  destruct (dmm_stops_at_first_refusal DMM.no_sens_data eq_refl) as (H1 & H2 & _).
  split; [exact H1|exact H2].
Defined.

End MoreSamples.
